(** * Release deploy strategy (fabricext/releases/release.py)

    A shallow embedding of the [Release] context manager: release-id
    generation, the remote host as a finite map from paths to entries, the
    methods of the class as computations over the manager object and the
    world it runs in, and the properties of the release lifecycle. *)

From Stdlib Require Import String Ascii List Arith Lia DecimalString Decimal.
From Stdlib Require DecimalNat.
From stdpp Require Import gmap strings list sorting.

Open Scope string_scope.
Open Scope list_scope.

(** ** Paths

    A path is the list of its components; [os.path.join] of a path and a
    relative name appends the components of the name. *)

Module Path.

Definition path := list string.

Definition join (p name : path) : path := p ++ name.

Definition parent (p : path) : path := removelast p.

Definition basename (p : path) : string := List.last p "".

End Path.

Import Path.

(** ** Wall-clock time and release names *)

Module Clock.

Record date := mkDate { year : nat; month : nat; day : nat }.

Record datetime := mkDatetime {
  dt_date : date; hour : nat; minute : nat; second : nat }.

(** The values [datetime.now()] can return. *)
Definition valid_date (d : date) : Prop :=
  1 <= year d <= 9999 /\ 1 <= month d <= 12 /\ 1 <= day d <= 31.

Definition valid_datetime (t : datetime) : Prop :=
  valid_date (dt_date t) /\ hour t < 24 /\ minute t < 60 /\ second t < 60.

(** Decimal rendering of a number, as [str.format] gives it. *)
Definition dec (n : nat) : string := NilZero.string_of_uint (Nat.to_uint n).

Fixpoint zeros (n : nat) : string :=
  match n with
  | 0 => ""
  | S k => String "0" (zeros k)
  end.

(** [%0wd]: zero padding on the left up to width [w]. *)
Definition zfill (w : nat) (s : string) : string :=
  (zeros (w - String.length s) ++ s)%string.

(** [date.isoformat()]: [YYYY-MM-DD]. *)
Definition isoformat (d : date) : string :=
  (zfill 4 (dec (year d)) ++ "-" ++ zfill 2 (dec (month d))
     ++ "-" ++ zfill 2 (dec (day d)))%string.

(** Seconds since midnight, as [_gen_rel] adds them up. *)
Definition seconds_of (t : datetime) : nat :=
  second t + minute t * 60 + hour t * 3600.

(** ["{0}.{1}".format(date.today().isoformat(), seconds)]: [now] is the
    reading of [datetime.now()], [today] the one of [date.today()]. *)
Definition format_rel (today : date) (seconds : nat) : string :=
  (isoformat today ++ "." ++ dec seconds)%string.

(** Chronological order of two instants, by date and then by second of the
    day. *)
Definition date_lt (d1 d2 : date) : Prop :=
  year d1 < year d2
  \/ (year d1 = year d2 /\ month d1 < month d2)
  \/ (year d1 = year d2 /\ month d1 = month d2 /\ day d1 < day d2).

Definition earlier (t1 t2 : datetime) : Prop :=
  date_lt (dt_date t1) (dt_date t2)
  \/ (dt_date t1 = dt_date t2 /\ seconds_of t1 < seconds_of t2).

End Clock.

Import Clock.

(** String order of Python 2 [str]: byte-wise lexicographic. *)
Definition str_lt (s1 s2 : string) : Prop := String.ltb s1 s2 = true.
Definition str_le (s1 s2 : string) : Prop := String.leb s1 s2 = true.

#[global] Instance str_le_dec s1 s2 : Decision (str_le s1 s2).
Proof. unfold str_le. apply _. Defined.

#[global] Instance str_lt_dec s1 s2 : Decision (str_lt s1 s2).
Proof. unfold str_lt. apply _. Defined.

(** [sorted(names)] *)
Definition sorted (l : list string) : list string := merge_sort str_le l.

(** The characters [str.split()] cuts at: space, tab, line feed, vertical
    tab, form feed and carriage return. *)
Definition is_space (c : ascii) : bool :=
  let n := nat_of_ascii c in
  ((n =? 32) || ((9 <=? n) && (n <=? 13)))%nat.

(** [cur] is the piece read so far. *)
Fixpoint split_from (cur : string) (s : string) : list string :=
  match s with
  | EmptyString =>
      match cur with
      | EmptyString => []
      | _ => [cur]
      end
  | String c s' =>
      if is_space c
      then match cur with
           | EmptyString => split_from EmptyString s'
           | _ => cur :: split_from EmptyString s'
           end
      else split_from (cur ++ String c EmptyString)%string s'
  end.

(** [s.split()]: the pieces of [s] between runs of whitespace. *)
Definition split_ws (s : string) : list string := split_from EmptyString s.

(** What a command prints when it prints one name per line. *)
Fixpoint lines (names : list string) : string :=
  match names with
  | [] => EmptyString
  | d :: names' => (d ++ String "010" (lines names'))%string
  end.

(** ** The remote host

    The file system of the host as a finite map from paths to entries.  An
    entry is addressed by the name it was created under (paths are not
    canonicalised).  The functions below give the effect of each shell
    command the class sends when the command succeeds; whether a command
    succeeds is decided by the world (see [run] below). *)

Module Host.

Inductive node :=
  | Dir
  | Link (target : path).

#[global] Instance node_eq_dec : EqDecision node.
Proof. solve_decision. Defined.

(** The root directory is always there. *)
Definition entry (h : gmap path node) (p : path) : option node :=
  match p with
  | [] => Some Dir
  | _ => h !! p
  end.

(** Follow the symbolic link at [p], at most [fuel] links deep. *)
Fixpoint resolve (fuel : nat) (h : gmap path node) (p : path) : option path :=
  match entry h p with
  | None => None
  | Some Dir => Some p
  | Some (Link t) =>
      match fuel with
      | 0 => None
      | S f => resolve f h t
      end
  end.

(** The kernel gives up after 40 links. *)
Definition max_links : nat := 40.

(** [exists(path)], that is [test -e path]: symbolic links are followed, so
    a dangling link does not exist. *)
Definition exists_ (h : gmap path node) (p : path) : bool :=
  bool_decide (is_Some (resolve max_links h p)).

(** [mkdir -p p]: every missing directory on the way to [p] is created,
    what is there is left as it is. *)
Fixpoint mkdir_p_from (h : gmap path node) (pre rest : path) : gmap path node :=
  match rest with
  | [] => h
  | c :: rest' =>
      let q := pre ++ [c] in
      match h !! q with
      | None => mkdir_p_from (<[q := Dir]> h) q rest'
      | Some _ => mkdir_p_from h q rest'
      end
  end.

Definition mkdir_p (h : gmap path node) (p : path) : gmap path node :=
  mkdir_p_from h [] p.

(** [mkdir p] *)
Definition mkdir (h : gmap path node) (p : path) : gmap path node :=
  <[p := Dir]> h.

(** [rm -rf p]: [p] and everything below it goes; a link is removed, not
    what it points to. *)
Definition rm_rf (h : gmap path node) (p : path) : gmap path node :=
  filter (fun kv => ¬ p `prefix_of` kv.1) h.

(** [ln -s t l]: when [l] is a directory (or a link to one) the link is
    made inside it under the last component of [t]. *)
Definition ln_s (h : gmap path node) (t l : path) : gmap path node :=
  match resolve max_links h l with
  | Some d => <[d ++ [basename t] := Link t]> h
  | None => <[l := Link t]> h
  end.

(** [ln -nfs t l]: a link at [l] is replaced and not followed ([-n], [-f]);
    only when [l] is a real directory is the link made inside it. *)
Definition ln_nfs (h : gmap path node) (t l : path) : gmap path node :=
  match entry h l with
  | Some Dir => <[l ++ [basename t] := Link t]> h
  | _ => <[l := Link t]> h
  end.

(** The component [d] with [k = p ++ [d]], if there is one. *)
Fixpoint child_name (p k : path) : option string :=
  match p, k with
  | [], [d] => Some d
  | c :: p', c' :: k' => if decide (c = c') then child_name p' k' else None
  | _, _ => None
  end.

(** A name the shell pattern [*] leaves out. *)
Definition hidden (d : string) : bool :=
  match d with
  | String "." _ => true
  | _ => false
  end.

(** What [find * -maxdepth 0 -type d] prints in directory [p]: the names of
    the real directories directly under [p] that the pattern matches (links
    are not followed), in no particular order. *)
Definition find_dirs (h : gmap path node) (p : path) : list string :=
  omap (fun kv =>
          match kv.2 with
          | Dir => match child_name p kv.1 with
                   | Some d => if hidden d then None else Some d
                   | None => None
                   end
          | Link _ => None
          end) (map_to_list h).

(** What the pattern [*] matches in directory [p]: every entry directly
    under [p], of any kind, whose name does not start with a dot. *)
Definition glob_star (h : gmap path node) (p : path) : list string :=
  omap (fun kv =>
          match child_name p kv.1 with
          | Some d => if hidden d then None else Some d
          | None => None
          end) (map_to_list h).

(** Whether [cd p && find * -maxdepth 0 -type d] exits with status 0: [cd]
    needs [p] to be a directory, and where the pattern matches nothing
    [find] is given the name [*], which is not there, and fails. *)
Definition can_list (h : gmap path node) (p : path) : bool :=
  exists_ h p && negb (bool_decide (glob_star h p = [])).

End Host.

Import Host.

(** ** The world a deploy runs in *)

(** The shell commands the class sends to the host. *)
Inductive command :=
  | MkdirP (p : path)
  | Mkdir (p : path)
  | RmRf (p : path)
  | LnS (t l : path)
  | LnNfs (t l : path)
  | FindDirs (p : path).

(** What a command does to the host when it succeeds. *)
Definition effect (c : command) (h : gmap path node) : gmap path node :=
  match c with
  | MkdirP p => mkdir_p h p
  | Mkdir p => mkdir h p
  | RmRf p => rm_rf h p
  | LnS t l => ln_s h t l
  | LnNfs t l => ln_nfs h t l
  | FindDirs _ => h
  end.

Inductive message :=
  | Puts (s : string)
  | Warn (s : string).

(** [base_dir] is [env.base_dir]; [faults] says, for the commands to come,
    which ones the host fails ([true]), none once the list is used up;
    [trace] and [console] record the commands sent and the messages printed,
    latest first; [clock] gives the reading of the wall clock at each read,
    [ticks] counts the reads so far. *)
Record World := mkWorld {
  base_dir : option path;
  host : gmap path node;
  faults : list bool;
  trace : list command;
  console : list message;
  clock : nat -> datetime;
  ticks : nat }.

(** The compensating actions the class registers: the one closure in the
    source, [lambda: execute_pseudo_task(fn=self.revert_release)]. *)
Inductive action :=
  | RevertRelease.

(** The fields of a [Release] object ([rollback_stack] is the one it has
    from [Transaction]). *)
Record Release := mkRelease {
  base_path : path;
  shared : list path;
  current_rel : option string;
  previous_rel : option string;
  release_path : path;
  current_path : path;
  shared_path : path;
  rollback_stack : list action }.

Record state := mkState { self : Release; world : World }.

Definition set_current_rel (v : option string) (r : Release) : Release :=
  mkRelease (base_path r) (shared r) v (previous_rel r) (release_path r)
            (current_path r) (shared_path r) (rollback_stack r).

Definition set_rollback_stack (v : list action) (r : Release) : Release :=
  mkRelease (base_path r) (shared r) (current_rel r) (previous_rel r)
            (release_path r) (current_path r) (shared_path r) v.

Definition set_base_dir (v : option path) (w : World) : World :=
  mkWorld v (host w) (faults w) (trace w) (console w) (clock w) (ticks w).

Definition set_host (v : gmap path node) (w : World) : World :=
  mkWorld (base_dir w) v (faults w) (trace w) (console w) (clock w) (ticks w).

Definition set_faults (v : list bool) (w : World) : World :=
  mkWorld (base_dir w) (host w) v (trace w) (console w) (clock w) (ticks w).

Definition set_trace (v : list command) (w : World) : World :=
  mkWorld (base_dir w) (host w) (faults w) v (console w) (clock w) (ticks w).

Definition set_console (v : list message) (w : World) : World :=
  mkWorld (base_dir w) (host w) (faults w) (trace w) v (clock w) (ticks w).

Definition set_clock (v : nat -> datetime) (w : World) : World :=
  mkWorld (base_dir w) (host w) (faults w) (trace w) (console w) v (ticks w).

Definition set_ticks (v : nat) (w : World) : World :=
  mkWorld (base_dir w) (host w) (faults w) (trace w) (console w) (clock w) v.

Definition with_self (f : Release -> Release) (s : state) : state :=
  mkState (f (self s)) (world s).

Definition with_world (f : World -> World) (s : state) : state :=
  mkState (self s) (f (world s)).

(** ** Computations: state and exceptions

    A method either returns a value or raises; what it did to the object and
    to the world before raising stays done. *)

Inductive result (A : Type) :=
  | Ok (a : A)
  | Raised (e : string).

Arguments Ok {A} a.
Arguments Raised {A} e.

Definition M (A : Type) : Type := state -> result A * state.

Definition ret {A} (a : A) : M A := fun s => (Ok a, s).

Definition bind {A B} (m : M A) (k : A -> M B) : M B :=
  fun s =>
    match m s with
    | (Ok a, s') => k a s'
    | (Raised e, s') => (Raised e, s')
    end.

Definition raise {A} (e : string) : M A := fun s => (Raised e, s).

Definition gets {A} (f : state -> A) : M A := fun s => (Ok (f s), s).

Definition modify (f : state -> state) : M unit := fun s => (Ok tt, f s).

Declare Scope monad_scope.
Delimit Scope monad_scope with monad.
Notation "x <- m ;; k" := (bind m (fun x => k))
  (at level 100, m at next level, k at level 200, right associativity)
  : monad_scope.
Notation "m ;; k" := (bind m (fun _ => k))
  (at level 100, k at level 200, right associativity) : monad_scope.
Open Scope monad_scope.

(** [for x in l: f x] *)
Fixpoint for_each {A} (l : list A) (f : A -> M unit) : M unit :=
  match l with
  | [] => ret tt
  | x :: l' => f x ;; for_each l' f
  end.

Definition when (b : bool) (m : M unit) : M unit :=
  if b then m else ret tt.

(** ** Fabric's operations *)

Definition puts (s : string) : M unit :=
  modify (with_world (fun w => set_console (Puts s :: console w) w)).

Definition warn (s : string) : M unit :=
  modify (with_world (fun w => set_console (Warn s :: console w) w)).

(** [error(msg)] aborts; [error(msg, func=warn)] is [warn]. *)
Definition error {A} (s : string) : M A := raise s.

Definition exists_path (p : path) : M bool :=
  gets (fun s => exists_ (host (world s)) p).

(** The next entry of [faults], and the rest. *)
Definition next_fault (w : World) : bool * list bool :=
  match faults w with
  | [] => (false, [])
  | b :: fs => (b, fs)
  end.

(** [run(cmd)]: the command is sent; if the host fails it, nothing changes
    there and [run] aborts, unless [warn_only] is on, where [run] returns. *)
Definition run (warn_only : bool) (c : command) : M unit :=
  fun s =>
    let w := world s in
    let (failed, fs) := next_fault w in
    let w1 := set_trace (c :: trace w) (set_faults fs w) in
    if failed
    then (if warn_only then Ok tt else Raised "run failed",
          mkState (self s) w1)
    else (Ok tt, mkState (self s) (set_host (effect c (host w)) w1)).

(** [run('cd p && find * -maxdepth 0 -type d')] for its output: [run]
    aborts when the host fails the command or when the command exits with a
    status other than 0. *)
Definition run_find (p : path) : M string :=
  h <- gets (fun s => host (world s)) ;;
  run false (FindDirs p) ;;
  if can_list h p then ret (lines (find_dirs h p)) else raise "run failed".

(** [datetime.now()], [date.today()]: one reading of the clock each. *)
Definition read_clock : M datetime :=
  fun s =>
    let w := world s in
    (Ok (clock w (ticks w)), mkState (self s) (set_ticks (S (ticks w)) w)).

(** Modelled from the spec: [execute_pseudo_task] of
    [fabricext/releases/util.py], which is not among the sources.  The spec
    has every step of the entry and exit sequences performed directly, so
    the wrapper runs the function it is given. *)
Definition execute_pseudo_task {A} (fn : M A) : M A := fn.

(** ** Transaction *)

Module Transaction.

(** Modelled from the spec: [Transaction.on_rollback] of
    [fabricext/releases/transaction.py], which is not among the sources.  The
    action is appended to the end of the stack. *)
Definition on_rollback (a : action) : M unit :=
  modify (with_self (fun r => set_rollback_stack (rollback_stack r ++ [a]) r)).

(** Modelled from the spec: [Transaction.__enter__], missing as above; it
    does nothing beyond marking the transaction active. *)
Definition enter : M unit := ret tt.

(** One action of the drain: an action that raises does not keep the ones
    after it from running. *)
Definition attempt (m : M unit) : M unit :=
  fun s => (Ok tt, snd (m s)).

(** Modelled from the spec: [Transaction.__exit__], missing as above.  On
    failure the stack is gone through from the last action registered to the
    first and each is invoked; the stack is cleared whatever the outcome.
    [invoke] says what calling an action does. *)
Definition exit (invoke : action -> M unit) (failed : bool) : M unit :=
  stack <- gets (fun s => rollback_stack (self s)) ;;
  when failed (for_each (rev stack) (fun a => attempt (invoke a))) ;;
  modify (with_self (set_rollback_stack [])).

End Transaction.

(** ** The methods of [Release] *)

(** [Release(base_path, shared)] *)
Definition init (base : path) (shared_arg : option (list path)) : Release :=
  mkRelease base
            (match shared_arg with Some l => l | None => [["log"]] end)
            None None
            (join base ["releases"]) (join base ["current"])
            (join base ["shared"]) [].

Definition _gen_rel : M string :=
  curr_time <- read_clock ;;
  today <- read_clock ;;
  ret (format_rel (dt_date today) (seconds_of curr_time)).

Definition current_release : M string :=
  cur <- gets (fun s => current_rel (self s)) ;;
  match cur with
  | None =>
      r <- _gen_rel ;;
      modify (with_self (set_current_rel (Some r))) ;;
      ret r
  | Some r => ret r
  end.

Definition current_release_path : M path :=
  rp <- gets (fun s => release_path (self s)) ;;
  r <- current_release ;;
  ret (join rp [r]).

Definition revert_release : M unit :=
  d <- gets (fun s => base_dir (world s)) ;;
  match d with
  | Some p => run false (RmRf p)
  | None => raise "AttributeError: base_dir"
  end.

(** Calling a registered action. *)
Definition invoke (a : action) : M unit :=
  match a with
  | RevertRelease => execute_pseudo_task revert_release
  end.

Definition link_shared (name : path) (create : bool) : M unit :=
  crp <- current_release_path ;;
  sp <- gets (fun s => shared_path (self s)) ;;
  let rel := join crp name in
  let shared_dir := join sp name in
  e <- exists_path shared_dir ;;
  when (negb e)
       (if create then run false (Mkdir shared_dir)
        else error "Shared path does not exists") ;;
  e' <- exists_path rel ;;
  when (negb e') (run false (LnS shared_dir rel)).

Definition create_release : M unit :=
  puts "Creating new release path" ;;
  p <- current_release_path ;;
  modify (with_world (set_base_dir (Some p))) ;;
  d <- gets (fun s => base_dir (world s)) ;;
  match d with
  | Some d' => run false (MkdirP d')
  | None => raise "AttributeError: base_dir"
  end ;;
  Transaction.on_rollback RevertRelease ;;
  names <- gets (fun s => shared (self s)) ;;
  for_each names (fun n => link_shared n true).

Definition setup : M unit :=
  puts "Setting up release paths." ;;
  bp <- gets (fun s => base_path (self s)) ;;
  e <- exists_path bp ;;
  when (negb e) (error "Missing base path.") ;;
  rp <- gets (fun s => release_path (self s)) ;;
  sp <- gets (fun s => shared_path (self s)) ;;
  for_each [rp; sp]
           (fun p => e' <- exists_path p ;;
                     when (negb e') (run true (MkdirP p))) ;;
  create_release.

Definition releases : M (list string) :=
  rp <- gets (fun s => release_path (self s)) ;;
  out <- run_find rp ;;
  ret (sorted (split_ws out)).

(** The retention count written in [cleanup]. *)
Definition keep : nat := 5.

Definition cleanup : M unit :=
  puts "Cleaning up releases." ;;
  rels <- releases ;;
  rp <- gets (fun s => release_path (self s)) ;;
  when (keep <? length rels)%nat
       (for_each (drop keep (rev rels))
                 (fun d => run false (RmRf (join rp [d])))).

Definition symlink : M unit :=
  cp <- gets (fun s => current_path (self s)) ;;
  e <- exists_path cp ;;
  when e (run false (RmRf cp)) ;;
  p <- current_release_path ;;
  run false (LnNfs p cp).

(** [rollback_release] returns [False] when there is nothing to go back to
    ([Some false] here) and [None] otherwise. *)
Definition rollback_release : M (option bool) :=
  rels <- releases ;;
  if (length rels <? 2)%nat
  then warn "No previous release found" ;; ret (Some false)
  else
    match rels !! (length rels - 1), rels !! (length rels - 2) with
    | Some old_rel, Some new_rel =>
        modify (with_self (set_current_rel (Some new_rel))) ;;
        puts "Rolling back release" ;;
        symlink ;;
        rp <- gets (fun s => release_path (self s)) ;;
        run false (RmRf (join rp [old_rel])) ;;
        ret None
    | _, _ => raise "IndexError"
    end.

(** [__enter__] *)
Definition enter : M unit :=
  execute_pseudo_task setup ;;
  Transaction.enter.

(** [__exit__(type, value, tb)]: [exc] is the exception the body raised, if
    it raised. *)
Definition exit (exc : option string) : M unit :=
  match exc with
  | Some _ => warn "Release failed."
  | None =>
      puts "Release successful." ;;
      execute_pseudo_task symlink ;;
      execute_pseudo_task cleanup
  end ;;
  Transaction.exit invoke (bool_decide (is_Some exc)).

(** [with release(...) as r: body], as the class is meant to be used: when
    [__enter__] raises, the body is not run and [__exit__] is not called;
    otherwise [__exit__] is called with what the body raised.  [__exit__]
    returns nothing, so what the body raised is raised again after it. *)
Definition with_release (body : M unit) : M unit :=
  fun s =>
    match enter s with
    | (Raised e, s1) => (Raised e, s1)
    | (Ok _, s1) =>
        match body s1 with
        | (Ok _, s2) => exit None s2
        | (Raised e, s2) =>
            match exit (Some e) s2 with
            | (Ok _, s3) => (Raised e, s3)
            | (Raised e', s3) => (Raised e', s3)
            end
        end
    end.

(** ** What the accessors compute

    The value and the state [current_release] ends in, written out: the
    cached name when there is one, else the name made from the next two
    readings of the clock. *)

Definition release_id (s : state) : string :=
  match current_rel (self s) with
  | Some r => r
  | None =>
      let w := world s in
      format_rel (dt_date (clock w (S (ticks w))))
                 (seconds_of (clock w (ticks w)))
  end.

Definition after_current_release (s : state) : state :=
  match current_rel (self s) with
  | Some _ => s
  | None =>
      mkState (set_current_rel (Some (release_id s)) (self s))
              (set_ticks (S (S (ticks (world s)))) (world s))
  end.

(** The state after a command the host carried out. *)
Definition ran (c : command) (s : state) : state :=
  let w := world s in
  mkState (self s)
          (set_host (effect c (host w))
                    (set_trace (c :: trace w) (set_faults (snd (next_fault w)) w))).

(** The paths of an object are the ones [__init__] derives from the base. *)
Definition paths_ok (r : Release) : Prop :=
  release_path r = join (base_path r) ["releases"]
  /\ current_path r = join (base_path r) ["current"]
  /\ shared_path r = join (base_path r) ["shared"].

(** The host fails none of the commands to come. *)
Definition no_faults (w : World) : Prop := Forall (fun b => b = false) (faults w).

(** The state after a command the host failed. *)
Definition failed (c : command) (s : state) : state :=
  let w := world s in
  mkState (self s) (set_trace (c :: trace w) (set_faults (snd (next_fault w)) w)).

(** The names [releases] returns in a state. *)
Definition release_names (s : state) : list string :=
  sorted (split_ws (lines (find_dirs (host (world s)) (release_path (self s))))).

(** The directories the listing of the release path prints. *)
Definition dir_names (s : state) : list string :=
  find_dirs (host (world s)) (release_path (self s)).

(** A name [str.split()] leaves whole: not empty and without whitespace. *)
Definition plain (d : string) : Prop := split_ws d = [d].

(** The listing of the release path goes through. *)
Definition listable (s : state) : Prop :=
  can_list (host (world s)) (release_path (self s)) = true.

(** The state [symlink] ends in when its commands are carried out and the
    release name [id] is cached. *)
Definition symlinked (id : string) (s : state) : state :=
  let cp := current_path (self s) in
  ran (LnNfs (join (release_path (self s)) [id]) cp)
      (if exists_ (host (world s)) cp then ran (RmRf cp) s else s).

Arguments ran : simpl never.
Arguments failed : simpl never.
Arguments after_current_release : simpl never.
Arguments release_id : simpl never.

(** The state [rollback_release] ends in when it goes from [old_rel] back to
    [new_rel] and its commands are carried out. *)
Definition rolled_back (new_rel old_rel : string) (s : state) : state :=
  let rp := release_path (self s) in
  let s1 := ran (FindDirs rp) s in
  let s2 := with_self (set_current_rel (Some new_rel)) s1 in
  let s3 := with_world
              (fun w => set_console (Puts "Rolling back release" :: console w) w) s2 in
  ran (RmRf (join rp [old_rel])) (symlinked new_rel s3).

Arguments symlinked : simpl never.

(** ** Deploys to try the class on

    A base path [/srv/app] that has been deployed to before: [releases] and
    [shared/log] are there, with one directory per name in [names]. *)

Module Scenario.

Definition app : path := ["srv"; "app"].

Definition layout (names : list string) : gmap path node :=
  list_to_map
    ((["srv"], Dir) :: (app, Dir)
       :: (app ++ ["releases"], Dir)
       :: (app ++ ["shared"], Dir)
       :: (app ++ ["shared"; "log"], Dir)
       :: map (fun n => (app ++ ["releases"; n], Dir)) names).

(** The clock stands at [t]. *)
Definition world_at (h : gmap path node) (t : datetime) (fs : list bool) : World :=
  mkWorld None h fs [] [] (fun _ => t) 0.

(** A new [Release('/srv/app')] in that world. *)
Definition fresh (h : gmap path node) (t : datetime) (fs : list bool) : state :=
  mkState (init app None) (world_at h t fs).

Definition jan1 : date := mkDate 2013 1 1.

Definition at_time (d : date) (h m sec : nat) : datetime := mkDatetime d h m sec.

(** The name a release made at [t] gets. *)
Definition name_at (t : datetime) : string :=
  format_rel (dt_date t) (seconds_of t).

Definition release_dir (n : string) : path := app ++ ["releases"; n].

(** 02:46:39 and 02:46:40 on the same day: seconds 9999 and 10000. *)
Definition t_9999 : datetime := at_time jan1 2 46 39.
Definition t_10000 : datetime := at_time jan1 2 46 40.

(** 02:46:38, a second before [t_9999]: second 9998. *)
Definition t_9998 : datetime := at_time jan1 2 46 38.

(** The base path with the releases [names] and [current] a link to the
    release [n]. *)
Definition layout_current (names : list string) (n : string) : gmap path node :=
  <[app ++ ["current"] := Link (app ++ ["releases"; n])]> (layout names).

(** Six releases of one day, from 02:46:39 on, one second apart. *)
Definition six_times : list datetime :=
  [t_9999; t_10000; at_time jan1 2 46 41; at_time jan1 2 46 42;
   at_time jan1 2 46 43; at_time jan1 2 46 44].

(** Five releases of one day, at 01:23:20, 01:40:00, 01:56:40, 02:13:20 and
    02:30:00 (seconds 5000 to 9000). *)
Definition five_times : list datetime :=
  [at_time jan1 1 23 20; at_time jan1 1 40 0; at_time jan1 1 56 40;
   at_time jan1 2 13 20; at_time jan1 2 30 0].

(** Three releases on three days, at 10:00. *)
Definition three_names : list string :=
  [name_at (at_time (mkDate 2013 1 1) 10 0 0);
   name_at (at_time (mkDate 2013 1 2) 10 0 0);
   name_at (at_time (mkDate 2013 1 3) 10 0 0)].

End Scenario.

(** ** The steps of [setup], written out *)

(** The state after a command sent with [warn_only] on: carried out, or
    failed and passed over. *)
Definition ran_tolerant (c : command) (s : state) : state :=
  if fst (next_fault (world s)) then failed c s else ran c s.

(** The state after [puts(msg)]. *)
Definition put_line (msg : string) (s : state) : state :=
  with_world (fun w => set_console (Puts msg :: console w) w) s.

(** One round of the loop over [release_path] and [shared_path]. *)
Definition bootstrap_step (p : path) (s : state) : state :=
  if exists_ (host (world s)) p then s else ran_tolerant (MkdirP p) s.

(** The state in which [setup] calls [create_release]. *)
Definition bootstrap (s : state) : state :=
  bootstrap_step (shared_path (self s))
    (bootstrap_step (release_path (self s))
       (put_line "Setting up release paths." s)).

(** The state in which [create_release] starts linking: the name is cached,
    [env.base_dir] is set, the directory is made and the revert is
    registered. *)
Definition created (s : state) : state :=
  let d := join (release_path (self s)) [release_id s] in
  with_self (fun r => set_rollback_stack (rollback_stack r ++ [RevertRelease]) r)
    (ran (MkdirP d)
       (with_world (set_base_dir (Some d))
          (after_current_release (put_line "Creating new release path" s)))).

Arguments ran_tolerant : simpl never.

(** What linking shared paths into the release directory [d] leaves alone:
    the object, [env.base_dir], every directory, and every entry that is
    neither under the shared path nor under [d]; and no entry goes away. *)
Definition kept (d : path) (s s' : state) : Prop :=
  self s' = self s
  /\ base_dir (world s') = base_dir (world s)
  /\ (forall k, host (world s) !! k = Some Dir -> host (world s') !! k = Some Dir)
  /\ (forall k, ¬ shared_path (self s) `prefix_of` k -> ¬ d `prefix_of` k ->
        host (world s') !! k = host (world s) !! k)
  /\ (forall k, is_Some (host (world s) !! k) -> is_Some (host (world s') !! k)).
Arguments run : simpl never.
Arguments link_shared : simpl never.
Arguments current_release_path : simpl never.
Arguments current_release : simpl never.

(** The state after a list of commands, each carried out. *)
Definition ran_all (cs : list command) (s : state) : state :=
  foldl (fun s c => ran c s) s cs.

(** The [rm -rf] commands of [cleanup] for the names [ds]. *)
Definition removals (rp : path) (ds : list string) : list command :=
  map (fun d => RmRf (join rp [d])) ds.

(** The names [cleanup] deletes when [rels] are listed. *)
Definition excess (rels : list string) : list string := drop keep (rev rels).

(** ** Decimal digits

    The digits of a number, most significant first, to say what [dec] and
    the zero padded fields of a name look like. *)

Definition digit_char (i : nat) : ascii :=
  match i with
  | 0 => "0" | 1 => "1" | 2 => "2" | 3 => "3" | 4 => "4"
  | 5 => "5" | 6 => "6" | 7 => "7" | 8 => "8" | _ => "9"
  end%char.

Definition digit_uint (i : nat) (d : uint) : uint :=
  match i with
  | 0 => D0 d | 1 => D1 d | 2 => D2 d | 3 => D3 d | 4 => D4 d
  | 5 => D5 d | 6 => D6 d | 7 => D7 d | 8 => D8 d | _ => D9 d
  end.

Fixpoint uint_of_digits (l : list nat) : uint :=
  match l with
  | [] => Nil
  | i :: l' => digit_uint i (uint_of_digits l')
  end.

Fixpoint string_of_digits (l : list nat) : string :=
  match l with
  | [] => ""
  | i :: l' => String (digit_char i) (string_of_digits l')
  end.

(** The number a list of digits stands for, continuing from [acc]. *)
Definition value_from (acc : nat) (l : list nat) : nat :=
  fold_left (fun a i => 10 * a + i) l acc.

Definition value (l : list nat) : nat := value_from 0 l.

Fixpoint digits_aux (fuel n : nat) (acc : list nat) : list nat :=
  match fuel with
  | 0 => n :: acc
  | S f => if (n <? 10)%nat then n :: acc
           else digits_aux f (n / 10) (n mod 10 :: acc)
  end.

Definition digits (n : nat) : list nat := digits_aux n n [].

(** The digits of [n] filled up with zeros on the left to width [w]. *)
Definition padded (w n : nat) : list nat :=
  repeat 0 (w - length (digits n)) ++ digits n.

(** Comparison by a first key and then a second one. *)
Definition lex (c r : comparison) : comparison :=
  match c with
  | Eq => r
  | _ => c
  end.


(** More deploys to try the class on. *)

Module Scenario2.

Import Scenario.

(** 10:00 on the day after the three releases of [three_names]. *)
Definition jan4 : datetime := at_time (mkDate 2013 1 4) 10 0 0.

(** A new object for [/srv/app] where three releases are. *)
Definition s_three : state := fresh (layout three_names) jan4 [].

(** The same with six releases of one day. *)
Definition s_six : state := fresh (layout (map name_at six_times)) jan4 [].

(** An object of which the third release is the current one. *)
Definition s_cached : state :=
  mkState (set_current_rel (Some "2013-01-03.36000") (init app None))
          (world_at (layout three_names) jan4 []).

(** A body that fails at once. *)
Definition failing_body : M unit := raise "boom".

End Scenario2.

(** * Properties *)

(** ** Computations step by step *)

Lemma next_fault_no_faults w :
  no_faults w -> fst (next_fault w) = false /\ Forall (fun b => b = false) (snd (next_fault w)).
Proof.
  unfold no_faults, next_fault. destruct (faults w) as [|b fs]; simpl.
  - intros _. split; [reflexivity | constructor].
  - intros H. inversion H; subst. split; auto.
Qed.

Lemma run_ok wo c s :
  fst (next_fault (world s)) = false -> run wo c s = (Ok tt, ran c s).
Proof.
  unfold run, ran. destruct (next_fault (world s)) as [failed fs]; simpl.
  intros ->. reflexivity.
Qed.

Lemma no_faults_ran c s : no_faults (world s) -> no_faults (world (ran c s)).
Proof.
  intros H. apply next_fault_no_faults in H as [_ H]. exact H.
Qed.

Lemma current_release_eq s :
  current_release s = (Ok (release_id s), after_current_release s).
Proof.
  unfold current_release, after_current_release, bind, gets.
  unfold release_id at 1.
  destruct (current_rel (self s)) as [r|] eqn:E; [reflexivity|].
  unfold _gen_rel, bind, read_clock, modify, ret, with_self; simpl.
  unfold release_id. rewrite E. reflexivity.
Qed.

Lemma current_release_path_eq s :
  current_release_path s
  = (Ok (join (release_path (self s)) [release_id s]), after_current_release s).
Proof.
  unfold current_release_path, bind, gets. rewrite current_release_eq.
  reflexivity.
Qed.

Lemma after_current_release_cached s :
  current_rel (self (after_current_release s)) = Some (release_id s).
Proof.
  unfold after_current_release, release_id.
  destruct (current_rel (self s)) eqn:E; simpl; [exact E | reflexivity].
Qed.

Lemma after_current_release_frame s :
  let s' := after_current_release s in
  host (world s') = host (world s) /\ trace (world s') = trace (world s)
  /\ faults (world s') = faults (world s) /\ base_dir (world s') = base_dir (world s)
  /\ console (world s') = console (world s)
  /\ base_path (self s') = base_path (self s)
  /\ release_path (self s') = release_path (self s)
  /\ current_path (self s') = current_path (self s)
  /\ shared_path (self s') = shared_path (self s)
  /\ shared (self s') = shared (self s)
  /\ rollback_stack (self s') = rollback_stack (self s).
Proof.
  unfold after_current_release. destruct (current_rel (self s)); simpl; repeat split.
Qed.

Lemma current_release_hit s id :
  current_rel (self s) = Some id -> current_release s = (Ok id, s).
Proof.
  intros H. rewrite current_release_eq.
  unfold release_id, after_current_release. rewrite H. reflexivity.
Qed.

Lemma current_release_path_hit s id :
  current_rel (self s) = Some id ->
  current_release_path s = (Ok (join (release_path (self s)) [id]), s).
Proof.
  intros H. unfold current_release_path, bind, gets.
  rewrite (current_release_hit _ _ H). reflexivity.
Qed.

(** ** The cached release name *)

(** C8: the first call of [current_release] yields a name and caches it; from
    then on every call on the object returns that name and changes nothing,
    whatever the world has become in between (any clock, any host): the clock
    is not read again. *)
Theorem current_release_cached (s : state) :
  exists (id : string) (s1 : state),
    current_release s = (Ok id, s1)
    /\ current_rel (self s1) = Some id
    /\ forall w' : World,
         current_release (mkState (self s1) w') = (Ok id, mkState (self s1) w').
Proof.
  exists (release_id s), (after_current_release s).
  split; [apply current_release_eq|].
  split; [apply after_current_release_cached|].
  intros w'. apply current_release_hit. simpl.
  apply after_current_release_cached.
Qed.

(** ** The host *)

Lemma lookup_rm_rf (h : gmap path node) (p k : path) :
  rm_rf h p !! k = if decide (p `prefix_of` k) then None else h !! k.
Proof.
  unfold rm_rf. destruct (decide (p `prefix_of` k)) as [Hp|Hp].
  - apply map_lookup_filter_None. right. intros x _ Hn. apply Hn. exact Hp.
  - destruct (h !! k) as [x|] eqn:E.
    + apply map_lookup_filter_Some. split; [exact E | exact Hp].
    + apply map_lookup_filter_None. left. exact E.
Qed.

Lemma rm_rf_below (h : gmap path node) (p k : path) :
  p `prefix_of` k -> rm_rf h p !! k = None.
Proof. intros H. rewrite lookup_rm_rf. destruct (decide _); [reflexivity | contradiction]. Qed.

Lemma rm_rf_other (h : gmap path node) (p k : path) :
  ¬ p `prefix_of` k -> rm_rf h p !! k = h !! k.
Proof. intros H. rewrite lookup_rm_rf. destruct (decide _); [contradiction | reflexivity]. Qed.

Lemma child_name_Some (p k : path) (d : string) :
  child_name p k = Some d <-> k = p ++ [d].
Proof.
  revert k. induction p as [|c p IH]; intros k; simpl.
  - destruct k as [|x [|y k]]; split; intros H; try discriminate; congruence.
  - destruct k as [|c' k]; [split; intros H; discriminate|].
    destruct (decide (c = c')) as [->|Hne].
    + rewrite IH. split; intros H; congruence.
    + split; intros H; [discriminate | congruence].
Qed.

Lemma elem_of_find_dirs (h : gmap path node) (p : path) (d : string) :
  d ∈ find_dirs h p <-> h !! (p ++ [d]) = Some Dir /\ hidden d = false.
Proof.
  unfold find_dirs. rewrite list_elem_of_omap. split.
  - intros [[k n] [Hin Hf]]. apply elem_of_map_to_list in Hin. simpl in Hf.
    destruct n; [|discriminate].
    destruct (child_name p k) as [d'|] eqn:Ec; [|discriminate].
    destruct (hidden d') eqn:Eh; [discriminate|].
    injection Hf as <-. apply child_name_Some in Ec. subst k. split; assumption.
  - intros [Hl Hh]. exists (p ++ [d], Dir). split.
    + apply elem_of_map_to_list. exact Hl.
    + simpl. rewrite (proj2 (child_name_Some p (p ++ [d]) d) eq_refl).
      rewrite Hh. reflexivity.
Qed.

Lemma NoDup_find_dirs (h : gmap path node) (p : path) : NoDup (find_dirs h p).
Proof.
  unfold find_dirs.
  pose proof (NoDup_fst_map_to_list h) as Hnd.
  induction (map_to_list h) as [|[k n] l IH]; simpl; [constructor|].
  simpl in Hnd. apply NoDup_cons in Hnd as [Hk Hl].
  specialize (IH Hl).
  destruct n; [|exact IH].
  destruct (child_name p k) as [d|] eqn:Ec; [|exact IH].
  destruct (hidden d); [exact IH|].
  simpl. apply NoDup_cons. split; [|exact IH].
  intros Hin. apply list_elem_of_omap in Hin as [[k' n'] [Hin Hf]].
  simpl in Hf. destruct n'; [|discriminate].
  destruct (child_name p k') as [d'|] eqn:Ec'; [|discriminate].
  destruct (hidden d'); [discriminate|]. injection Hf as ->.
  apply child_name_Some in Ec, Ec'. subst k k'.
  apply Hk. apply list_elem_of_fmap. exists (p ++ [d], Dir). split; [reflexivity | exact Hin].
Qed.

Lemma sorted_perm (l : list string) : sorted l ≡ₚ l.
Proof. apply merge_sort_Permutation. Qed.

Lemma length_sorted (l : list string) : length (sorted l) = length l.
Proof. apply Permutation_length, sorted_perm. Qed.

Lemma elem_of_sorted (l : list string) (d : string) : d ∈ sorted l <-> d ∈ l.
Proof. rewrite sorted_perm. reflexivity. Qed.

Lemma NoDup_sorted (l : list string) : NoDup l -> NoDup (sorted l).
Proof. intros H. rewrite sorted_perm. exact H. Qed.

Lemma resolve_dir (fuel : nat) (h : gmap path node) (p : path) :
  entry h p = Some Dir -> resolve fuel h p = Some p.
Proof. intros H. destruct fuel; simpl; rewrite H; reflexivity. Qed.

Lemma exists_dir (h : gmap path node) (p : path) :
  entry h p = Some Dir -> exists_ h p = true.
Proof.
  intros Hp. unfold exists_. apply bool_decide_eq_true.
  rewrite (resolve_dir _ _ _ Hp). eexists; reflexivity.
Qed.

Lemma exists_false_not_dir (h : gmap path node) (p : path) :
  exists_ h p = false -> entry h p <> Some Dir.
Proof.
  unfold exists_. intros H Hd.
  rewrite (resolve_dir _ _ _ Hd) in H.
  apply bool_decide_eq_false in H. apply H. eexists; reflexivity.
Qed.

Lemma exists_false_resolve (h : gmap path node) (p : path) :
  exists_ h p = false -> resolve max_links h p = None.
Proof.
  unfold exists_. intros H. apply bool_decide_eq_false in H.
  destruct (resolve max_links h p); [|reflexivity].
  exfalso. apply H. eexists; reflexivity.
Qed.

Lemma entry_lookup (h : gmap path node) (p : path) :
  p <> [] -> entry h p = h !! p.
Proof. destruct p; [congruence | reflexivity]. Qed.

(** [ln -nfs t l] where [l] is not a directory puts the link at [l]. *)
Lemma ln_nfs_at (h : gmap path node) (t l : path) :
  entry h l <> Some Dir -> ln_nfs h t l = <[l := Link t]> h.
Proof.
  unfold ln_nfs. intros H. destruct (entry h l) as [[|t']|]; congruence.
Qed.

(** Siblings: neither of two different children of a directory is above the
    other. *)
Lemma sibling_not_prefix (p : path) (a b : string) (rest k : path) :
  a <> b -> ¬ (p ++ a :: rest) `prefix_of` (p ++ b :: k).
Proof.
  intros Hne H. apply prefix_app_inv in H. apply prefix_cons_inv_1 in H. contradiction.
Qed.

Lemma sibling_ne (p : path) (a b : string) (rest k : path) :
  a <> b -> p ++ a :: rest <> p ++ b :: k.
Proof. intros Hne H. apply app_inv_head in H. congruence. Qed.

(** ** Splitting the output of a listing *)

Lemma split_from_space (cur d : string) (c : ascii) (rest : string) :
  is_space c = true ->
  split_from cur (d ++ String c rest)%string
  = split_from cur d ++ split_from EmptyString rest.
Proof.
  intros Hc. revert cur. induction d as [|x d IH]; intros cur.
  - change (EmptyString ++ String c rest)%string with (String c rest).
    cbn [split_from]. rewrite Hc. destruct cur; reflexivity.
  - change (String x d ++ String c rest)%string
      with (String x (d ++ String c rest)%string).
    cbn [split_from]. destruct (is_space x).
    + destruct cur; rewrite IH; reflexivity.
    + apply IH.
Qed.

(** Splitting what was printed one name per line gives the pieces of each
    name in turn. *)
Lemma split_lines (names : list string) :
  split_ws (lines names) = flat_map split_ws names.
Proof.
  induction names as [|d names IH]; [reflexivity|].
  cbn [lines flat_map]. unfold split_ws at 1.
  rewrite split_from_space by reflexivity.
  fold (split_ws d). fold (split_ws (lines names)). rewrite IH. reflexivity.
Qed.

Lemma flat_map_split_plain (names : list string) :
  Forall (fun d => split_ws d = [d]) names -> flat_map split_ws names = names.
Proof.
  induction names as [|d names IH]; intros H; [reflexivity|].
  apply Forall_cons in H as [Hd H]. cbn [flat_map]. rewrite Hd, (IH H). reflexivity.
Qed.

Lemma elem_of_glob_star (h : gmap path node) (p : path) (d : string) :
  d ∈ glob_star h p <-> is_Some (h !! (p ++ [d])) /\ hidden d = false.
Proof.
  unfold glob_star. rewrite list_elem_of_omap. split.
  - intros [[k n] [Hin Hf]]. apply elem_of_map_to_list in Hin. simpl in Hf.
    destruct (child_name p k) as [d'|] eqn:Ec; [|discriminate].
    destruct (hidden d') eqn:Eh; [discriminate|].
    injection Hf as <-. apply child_name_Some in Ec. subst k.
    split; [eexists; exact Hin | exact Eh].
  - intros [[n Hl] Hh]. exists (p ++ [d], n). split.
    + apply elem_of_map_to_list. exact Hl.
    + simpl. rewrite (proj2 (child_name_Some p (p ++ [d]) d) eq_refl).
      rewrite Hh. reflexivity.
Qed.

Lemma find_dirs_glob_star (h : gmap path node) (p : path) (d : string) :
  d ∈ find_dirs h p -> d ∈ glob_star h p.
Proof.
  rewrite elem_of_find_dirs, elem_of_glob_star. intros [H1 H2].
  split; [eexists; exact H1 | exact H2].
Qed.

(** A directory that resolves and holds a directory can be listed. *)
Lemma can_list_intro (h : gmap path node) (p : path) (d : string) :
  exists_ h p = true -> d ∈ find_dirs h p -> can_list h p = true.
Proof.
  intros He Hd. unfold can_list. rewrite He. simpl.
  apply negb_true_iff, bool_decide_eq_false. intros E.
  apply find_dirs_glob_star in Hd. rewrite E in Hd. inversion Hd.
Qed.

(** ** Commands and listings *)

Lemma run_failed c s :
  fst (next_fault (world s)) = true ->
  run false c s = (Raised "run failed", failed c s).
Proof.
  unfold run, failed. destruct (next_fault (world s)) as [b fs]; simpl.
  intros ->. reflexivity.
Qed.

Lemma run_cases c s :
  (fst (next_fault (world s)) = false /\ run false c s = (Ok tt, ran c s))
  \/ (fst (next_fault (world s)) = true
      /\ run false c s = (Raised "run failed", failed c s)).
Proof.
  destruct (fst (next_fault (world s))) eqn:E.
  - right. split; [reflexivity | apply run_failed, E].
  - left. split; [reflexivity | apply run_ok, E].
Qed.

Lemma releases_ok s :
  fst (next_fault (world s)) = false ->
  listable s ->
  releases s = (Ok (release_names s), ran (FindDirs (release_path (self s))) s).
Proof.
  intros H Hl. unfold releases, run_find, bind, gets.
  rewrite (run_ok _ _ _ H). unfold listable in Hl. rewrite Hl. reflexivity.
Qed.

Lemma releases_failed s :
  fst (next_fault (world s)) = true ->
  releases s = (Raised "run failed", failed (FindDirs (release_path (self s))) s).
Proof.
  intros H. unfold releases, run_find, bind, gets.
  rewrite (run_failed _ _ H). reflexivity.
Qed.

(** Where the listing exits with an error, [releases] aborts. *)
Lemma releases_unlistable s :
  fst (next_fault (world s)) = false ->
  can_list (host (world s)) (release_path (self s)) = false ->
  releases s = (Raised "run failed", ran (FindDirs (release_path (self s))) s).
Proof.
  intros H Hl. unfold releases, run_find, bind, gets.
  rewrite (run_ok _ _ _ H). rewrite Hl. reflexivity.
Qed.

Lemma release_names_plain s :
  Forall plain (dir_names s) -> release_names s = sorted (dir_names s).
Proof.
  intros H. unfold release_names. rewrite split_lines.
  rewrite flat_map_split_plain by exact H. reflexivity.
Qed.

(** ** Linking a shared path that is not there *)

(** C7: [link_shared(name, create=False)] where [shared/name] does not exist
    aborts with the error of the method; no command is sent, so the host is
    as it was and no release directory has appeared on it. *)
Theorem link_shared_missing_is_fatal (s : state) (name : path) :
  exists_ (host (world s)) (join (shared_path (self s)) name) = false ->
  fst (link_shared name false s) = Raised "Shared path does not exists"
  /\ host (world (snd (link_shared name false s))) = host (world s)
  /\ trace (world (snd (link_shared name false s))) = trace (world s)
  /\ find_dirs (host (world (snd (link_shared name false s))))
               (release_path (self s))
     = find_dirs (host (world s)) (release_path (self s)).
Proof.
  intros H.
  destruct (after_current_release_frame s)
    as (Hh & Ht & _ & _ & _ & _ & _ & _ & Hsp & _).
  assert (E : link_shared name false s
              = (Raised "Shared path does not exists", after_current_release s)).
  { unfold link_shared, bind. rewrite current_release_path_eq.
    unfold gets, exists_path, gets. simpl.
    rewrite Hh, Hsp, H. reflexivity. }
  rewrite E. simpl. rewrite Hh, Ht. repeat split; reflexivity.
Qed.


(** ** Promotion *)

Lemma bind_Ok_inv {A B} (m : M A) (k : A -> M B) s b s' :
  bind m k s = (Ok b, s') ->
  exists a s1, m s = (Ok a, s1) /\ k a s1 = (Ok b, s').
Proof.
  unfold bind. destruct (m s) as [[a|e] s1]; intros H; [|discriminate].
  exists a, s1. split; [reflexivity | exact H].
Qed.

Lemma run_Ok_inv c s u s' :
  run false c s = (Ok u, s') ->
  fst (next_fault (world s)) = false /\ s' = ran c s.
Proof.
  destruct (run_cases c s) as [[Hf ->]|[Hf ->]]; intros H; [|discriminate].
  split; [exact Hf | congruence].
Qed.

Lemma ran_self c s : self (ran c s) = self s.
Proof. reflexivity. Qed.

Lemma ran_host c s : host (world (ran c s)) = effect c (host (world s)).
Proof. reflexivity. Qed.

Lemma symlink_Ok_inv s id u s' :
  current_rel (self s) = Some id ->
  symlink s = (Ok u, s') -> s' = symlinked id s.
Proof.
  intros Hid. unfold symlink, symlinked.
  intros H. apply bind_Ok_inv in H as (cp & s1 & H1 & H).
  unfold gets in H1. injection H1 as <- <-.
  apply bind_Ok_inv in H as (e & s1 & H1 & H).
  unfold exists_path, gets in H1. injection H1 as <- <-.
  apply bind_Ok_inv in H as (u1 & s1 & H1 & H).
  apply bind_Ok_inv in H as (p & s2 & H2 & H).
  apply run_Ok_inv in H as [_ ->].
  destruct (exists_ (host (world s)) (current_path (self s))).
  - simpl in H1. apply run_Ok_inv in H1 as [_ ->].
    rewrite (current_release_path_hit _ id) in H2 by exact Hid.
    injection H2 as <- <-. reflexivity.
  - simpl in H1. unfold ret in H1. injection H1 as H1. subst s1.
    rewrite (current_release_path_hit _ id) in H2 by exact Hid.
    injection H2 as <- <-. reflexivity.
Qed.

Lemma symlink_no_faults s id :
  current_rel (self s) = Some id -> no_faults (world s) ->
  symlink s = (Ok tt, symlinked id s) /\ no_faults (world (symlinked id s)).
Proof.
  intros Hid Hnf. split.
  - unfold symlink, symlinked, bind, gets, exists_path, gets.
    destruct (exists_ (host (world s)) (current_path (self s))); unfold when.
    + rewrite run_ok by (apply next_fault_no_faults, Hnf).
      rewrite (current_release_path_hit _ id) by exact Hid.
      rewrite run_ok by (apply next_fault_no_faults, no_faults_ran, Hnf).
      reflexivity.
    + unfold ret. rewrite (current_release_path_hit _ id) by exact Hid.
      rewrite run_ok by (apply next_fault_no_faults, Hnf).
      reflexivity.
  - unfold symlinked.
    destruct (exists_ (host (world s)) (current_path (self s)));
      repeat apply no_faults_ran; exact Hnf.
Qed.

(** After [symlink], [current] is a link to the release cached in the
    object, and nothing outside [current] has changed. *)
Lemma symlinked_host s id :
  current_path (self s) <> [] ->
  let h' := host (world (symlinked id s)) in
  h' !! current_path (self s) = Some (Link (join (release_path (self s)) [id]))
  /\ forall k, ¬ current_path (self s) `prefix_of` k -> h' !! k = host (world s) !! k.
Proof.
  intros Hne. cbv zeta. unfold symlinked. set (cp := current_path (self s)) in *.
  destruct (exists_ (host (world s)) cp) eqn:E.
  - rewrite ran_host. simpl effect.
    rewrite ln_nfs_at.
    + split; [apply lookup_insert_eq|].
      intros k Hk. rewrite lookup_insert_ne.
      * apply rm_rf_other, Hk.
      * intros ->. apply Hk. reflexivity.
    + rewrite entry_lookup by exact Hne. rewrite rm_rf_below by reflexivity. discriminate.
  - rewrite ran_host. simpl effect.
    rewrite ln_nfs_at by (apply exists_false_not_dir, E).
    split; [apply lookup_insert_eq|].
    intros k Hk. apply lookup_insert_ne. intros ->. apply Hk. reflexivity.
Qed.

(** ** Rolling back to the previous release *)

Lemma symlinked_self id s : self (symlinked id s) = self s.
Proof.
  unfold symlinked. destruct (exists_ _ _); reflexivity.
Qed.

Lemma rollback_release_Ok_inv s r s' :
  rollback_release s = (Ok r, s') ->
  let rels := release_names s in
  listable s
  /\ ((length rels < 2 /\ r = Some false)
      \/ (2 <= length rels /\ r = None
          /\ exists new_rel old_rel,
               rels !! (length rels - 2) = Some new_rel
               /\ rels !! (length rels - 1) = Some old_rel
               /\ s' = rolled_back new_rel old_rel s)).
Proof.
  intros H. cbv zeta. unfold rollback_release in H.
  apply bind_Ok_inv in H as (rels & s1 & H1 & H).
  destruct (fst (next_fault (world s))) eqn:Ef.
  { rewrite (releases_failed _ Ef) in H1. discriminate. }
  destruct (can_list (host (world s)) (release_path (self s))) eqn:El0.
  2:{ rewrite (releases_unlistable _ Ef El0) in H1. discriminate. }
  split; [exact El0|].
  rewrite (releases_ok _ Ef El0) in H1. injection H1 as <- <-.
  destruct (length (release_names s) <? 2)%nat eqn:El.
  - left. apply Nat.ltb_lt in El. split; [exact El|].
    unfold bind, warn, modify, ret in H. simpl in H. congruence.
  - right. apply Nat.ltb_ge in El. split; [exact El|].
    destruct (release_names s !! (length (release_names s) - 1)) as [old_rel|] eqn:Eo;
      [|destruct (release_names s !! _); discriminate].
    destruct (release_names s !! (length (release_names s) - 2)) as [new_rel|] eqn:En;
      [|discriminate].
    apply bind_Ok_inv in H as (u1 & s1 & H1 & H).
    unfold modify in H1. injection H1 as _ <-.
    apply bind_Ok_inv in H as (u2 & s2 & H2 & H).
    unfold puts, modify in H2. injection H2 as _ <-.
    apply bind_Ok_inv in H as (u3 & s3 & H3 & H).
    apply symlink_Ok_inv with (id := new_rel) in H3; [|reflexivity].
    apply bind_Ok_inv in H as (rp & s4 & H4 & H).
    unfold gets in H4. injection H4 as <- <-.
    apply bind_Ok_inv in H as (u5 & s5 & H5 & H).
    apply run_Ok_inv in H5 as [_ ->].
    unfold ret in H. injection H as <- <-.
    split; [reflexivity|]. exists new_rel, old_rel.
    split; [reflexivity|]. split; [reflexivity|].
    subst s3. unfold rolled_back. rewrite symlinked_self. reflexivity.
Qed.

Lemma releases_not_above_current (base : path) (d : string) (rest : path) :
  ¬ (join (join base ["releases"]) (d :: rest)) `prefix_of` (join base ["current"]).
Proof.
  unfold join. rewrite <- app_assoc. simpl.
  apply sibling_not_prefix. discriminate.
Qed.

Lemma current_not_above_releases (base : path) (k : path) :
  ¬ (join base ["current"]) `prefix_of` (join (join base ["releases"]) k).
Proof.
  unfold join. rewrite <- app_assoc. simpl.
  apply sibling_not_prefix. discriminate.
Qed.

Lemma current_path_not_nil r : paths_ok r -> current_path r <> [].
Proof.
  intros (_ & -> & _). unfold join. destruct (base_path r); discriminate.
Qed.

(** What the host looks like after a roll back from [old_rel] to
    [new_rel]. *)
Lemma rolled_back_host s new_rel old_rel :
  paths_ok (self s) ->
  new_rel <> old_rel ->
  let rp := release_path (self s) in
  let h' := host (world (rolled_back new_rel old_rel s)) in
  h' !! current_path (self s) = Some (Link (join rp [new_rel]))
  /\ h' !! join rp [new_rel] = host (world s) !! join rp [new_rel]
  /\ (forall k, join rp [old_rel] `prefix_of` k -> h' !! k = None)
  /\ current_rel (self (rolled_back new_rel old_rel s)) = Some new_rel.
Proof.
  intros Hp Hne. cbv zeta. unfold rolled_back.
  set (s3 := with_world _ _).
  assert (Hcp : current_path (self s3) = current_path (self s)) by reflexivity.
  assert (Hrp : release_path (self s3) = release_path (self s)) by reflexivity.
  assert (Hh : host (world s3) = host (world s)) by reflexivity.
  pose proof (symlinked_host s3 new_rel) as Hs.
  rewrite Hcp, Hrp, Hh in Hs.
  specialize (Hs (current_path_not_nil _ Hp)). cbv zeta in Hs.
  destruct Hs as [Hl Ho].
  destruct Hp as (Erp & Ecp & _).
  rewrite ran_host. simpl effect.
  split; [|split; [|split]].
  - rewrite rm_rf_other; [exact Hl|].
    rewrite Erp, Ecp. apply releases_not_above_current.
  - rewrite rm_rf_other.
    + apply Ho. rewrite Erp, Ecp. apply current_not_above_releases.
    + unfold join. apply sibling_not_prefix. congruence.
  - intros k Hk. apply rm_rf_below, Hk.
  - rewrite ran_self, symlinked_self. reflexivity.
Qed.


(** ** The compensating action *)

Lemma revert_release_ok s q :
  base_dir (world s) = Some q ->
  fst (next_fault (world s)) = false ->
  revert_release s = (Ok tt, ran (RmRf q) s).
Proof.
  intros Hq Hf. unfold revert_release, bind, gets. rewrite Hq.
  apply run_ok, Hf.
Qed.

(** The state [__exit__] ends in after a failure, when the one action on
    the stack is the revert and the host carries its command out. *)
Lemma exit_failure_eq s e q :
  rollback_stack (self s) = [RevertRelease] ->
  base_dir (world s) = Some q ->
  fst (next_fault (world s)) = false ->
  exit (Some e) s
  = (Ok tt,
     with_self (set_rollback_stack [])
       (ran (RmRf q)
          (with_world (fun w => set_console (Warn "Release failed." :: console w) w) s))).
Proof.
  intros Hst Hq Hf.
  unfold exit, Transaction.exit, bind, warn, modify, gets. simpl.
  rewrite Hst. simpl. unfold bind, Transaction.attempt, execute_pseudo_task.
  rewrite (revert_release_ok _ q) by assumption.
  reflexivity.
Qed.

(** C10: when [__exit__] drains the stack after a failure, the command the
    revert sends is [rm -rf] of the path [q] that [env.base_dir] holds then;
    no path was kept at registration.  So everything at or below [q] is gone
    and everything else is as it was: a release directory [d] is removed when
    [env.base_dir] still is [d] (or a path above it), and stays when
    [env.base_dir] has been set to a path that is not above [d]. *)
Theorem revert_deletes_current_base_dir (s : state) (e : string) (q : path) :
  rollback_stack (self s) = [RevertRelease] ->
  base_dir (world s) = Some q ->
  fst (next_fault (world s)) = false ->
  let s' := snd (exit (Some e) s) in
  host (world s') = rm_rf (host (world s)) q
  /\ trace (world s') = RmRf q :: trace (world s)
  /\ (forall d : path, q `prefix_of` d -> host (world s') !! d = None)
  /\ (forall d : path, ¬ q `prefix_of` d ->
        host (world s') !! d = host (world s) !! d).
Proof.
  intros Hst Hq Hf. cbv zeta.
  rewrite (exit_failure_eq s e q Hst Hq Hf). simpl.
  split; [reflexivity|]. split; [reflexivity|]. split.
  - intros d Hd. apply rm_rf_below, Hd.
  - intros d Hd. apply rm_rf_other, Hd.
Qed.

(** ** The [with] statement *)

(** When [__enter__] raises, that is the outcome of the whole statement and
    the state is the one [__enter__] left. *)
Lemma with_release_enter_raises (body : M unit) s e :
  fst (enter s) = Raised e -> with_release body s = (Raised e, snd (enter s)).
Proof.
  unfold with_release. destruct (enter s) as [[u|e'] s1]; simpl; intros H.
  - discriminate.
  - congruence.
Qed.

Lemma with_release_body_ok (body : M unit) s s1 s2 :
  enter s = (Ok tt, s1) -> body s1 = (Ok tt, s2) ->
  with_release body s = exit None s2.
Proof.
  unfold with_release. intros -> ->. reflexivity.
Qed.

Lemma with_release_body_raises (body : M unit) s s1 s2 e :
  enter s = (Ok tt, s1) -> body s1 = (Raised e, s2) ->
  snd (with_release body s) = snd (exit (Some e) s2).
Proof.
  unfold with_release. intros -> ->.
  destruct (exit (Some e) s2) as [[u|e'] s3]; reflexivity.
Qed.

(** * The class on concrete deploys *)

Module Runs.

Import Scenario.

Example name_at_9999 : name_at t_9999 = "2013-01-01.9999".
Proof. reflexivity. Qed.

Example name_at_10000 : name_at t_10000 = "2013-01-01.10000".
Proof. reflexivity. Qed.

Example three_names_eq :
  three_names = ["2013-01-01.36000"; "2013-01-02.36000"; "2013-01-03.36000"].
Proof. vm_compute. reflexivity. Qed.

(** C1: two names generated on the same day, at 02:46:39 and a second
    later (seconds 9999 and 10000): the earlier one does not compare less,
    the later one does. *)
Theorem same_day_names_out_of_order :
  fst (_gen_rel (fresh (layout []) t_9999 [])) = Ok "2013-01-01.9999"
  /\ fst (_gen_rel (fresh (layout []) t_10000 [])) = Ok "2013-01-01.10000"
  /\ earlier t_9999 t_10000
  /\ ¬ str_lt "2013-01-01.9999" "2013-01-01.10000"
  /\ str_lt "2013-01-01.10000" "2013-01-01.9999".
Proof.
  split; [vm_compute; reflexivity|].
  split; [vm_compute; reflexivity|].
  split.
  { right. split; [reflexivity|]. apply Nat.ltb_lt. vm_compute. reflexivity. }
  split.
  - unfold str_lt. vm_compute. discriminate.
  - unfold str_lt. vm_compute. reflexivity.
Qed.

(** C2: six releases of one day, made from 02:46:39 on one second apart.
    [cleanup] removes the one of 02:46:40 and keeps the one of 02:46:39, the
    oldest of the six. *)
Theorem cleanup_keeps_the_oldest :
  let s := fresh (layout (map name_at six_times)) t_10000 [] in
  let s' := snd (cleanup s) in
  fst (cleanup s) = Ok tt
  /\ Forall (earlier t_9999) (tail six_times)
  /\ host (world s') !! release_dir (name_at t_9999) = Some Dir
  /\ host (world s') !! release_dir (name_at t_10000) = None
  /\ trace (world s')
     = [RmRf (release_dir "2013-01-01.10000"); FindDirs (app ++ ["releases"])]
  /\ release_names s'
     = ["2013-01-01.10001"; "2013-01-01.10002"; "2013-01-01.10003";
        "2013-01-01.10004"; "2013-01-01.9999"].
Proof.
  cbv zeta.
  split; [vm_compute; reflexivity|].
  split.
  { repeat (apply Forall_cons; split;
              [right; split; [reflexivity | apply Nat.ltb_lt; vm_compute; reflexivity]|]).
    apply Forall_nil. constructor. }
  split; [vm_compute; reflexivity|].
  split; [vm_compute; reflexivity|].
  split; vm_compute; reflexivity.
Qed.

(** C3: a deploy to a base path that has releases and [shared/log]; the
    host fails the second command, the [ln -s] of the shared path into the new
    release.  The error leaves [__enter__], so whatever the body is it is not
    run and [__exit__] is not called: the new release directory is still on
    the host, the revert is still on the stack and no [rm -rf] was sent. *)
Theorem failed_linking_leaves_release (body : M unit) :
  let s := fresh (layout three_names) t_10000 [false; true] in
  let s' := snd (with_release body s) in
  fst (with_release body s) = Raised "run failed"
  /\ host (world s') !! release_dir "2013-01-01.10000" = Some Dir
  /\ rollback_stack (self s') = [RevertRelease]
  /\ trace (world s')
     = [LnS (app ++ ["shared"; "log"]) (release_dir "2013-01-01.10000" ++ ["log"]);
        MkdirP (release_dir "2013-01-01.10000")].
Proof.
  cbv zeta.
  rewrite (with_release_enter_raises body _ "run failed")
    by (vm_compute; reflexivity).
  repeat split; vm_compute; reflexivity.
Qed.

(** C4: five releases made earlier the same day (01:23:20 to 02:30:00), a
    deploy at 02:46:40 whose body does nothing and succeeds.  On exit
    [symlink] points [current] at the new release and [cleanup] then removes
    that very release: [current] is left dangling. *)
Theorem promoted_release_is_pruned :
  let s := fresh (layout (map name_at five_times)) t_10000 [] in
  let s' := snd (with_release (ret tt) s) in
  let new := release_dir "2013-01-01.10000" in
  fst (with_release (ret tt) s) = Ok tt
  /\ Forall (fun t => earlier t t_10000) five_times
  /\ host (world s') !! (app ++ ["current"]) = Some (Link new)
  /\ host (world s') !! new = None
  /\ exists_ (host (world s')) (app ++ ["current"]) = false
  /\ take 3 (trace (world s'))
     = [RmRf new; FindDirs (app ++ ["releases"]); LnNfs new (app ++ ["current"])].
Proof.
  cbv zeta.
  split; [vm_compute; reflexivity|].
  split.
  { repeat (apply Forall_cons; split;
              [right; split; [reflexivity | apply Nat.ltb_lt; vm_compute; reflexivity]|]).
    apply Forall_nil. constructor. }
  repeat split; vm_compute; reflexivity.
Qed.

(** C5: three releases A, B and C made at 02:46:38, 02:46:39 and 02:46:40
    of one day (oldest to newest), [current] a link to C.  [rollback_release]
    completes, and afterwards [current] is a link to A and A is the name
    cached in the object; the directory of B is gone and the directory of C
    is still on the host. *)
Theorem rollback_removes_the_middle_release :
  let A := name_at t_9998 in
  let B := name_at t_9999 in
  let C := name_at t_10000 in
  let s := fresh (layout_current [A; B; C] C) t_10000 [] in
  let s' := snd (rollback_release s) in
  earlier t_9998 t_9999 /\ earlier t_9999 t_10000
  /\ host (world s) !! (app ++ ["current"]) = Some (Link (release_dir C))
  /\ fst (rollback_release s) = Ok None
  /\ host (world s') !! (app ++ ["current"]) = Some (Link (release_dir A))
  /\ current_rel (self s') = Some A
  /\ host (world s') !! release_dir B = None
  /\ host (world s') !! release_dir C = Some Dir
  /\ trace (world s')
     = [RmRf (release_dir B); LnNfs (release_dir A) (app ++ ["current"]);
        RmRf (app ++ ["current"]); FindDirs (app ++ ["releases"])].
Proof.
  cbv zeta.
  split. { right. split; [reflexivity | apply Nat.ltb_lt; vm_compute; reflexivity]. }
  split. { right. split; [reflexivity | apply Nat.ltb_lt; vm_compute; reflexivity]. }
  repeat split; vm_compute; reflexivity.
Qed.

(** C9: the same three releases, made at 02:46:38, 02:46:39 and 02:46:40.
    The names listed are in the order 02:46:40, 02:46:38, 02:46:39, so after
    [rollback_release] has gone back the name cached is the one of 02:46:38,
    the oldest of the three and not the second newest; [current_release] and
    [current_release_path] return that name and its path. *)
Theorem rollback_caches_the_oldest_release :
  let s := fresh (layout_current (map name_at [t_9998; t_9999; t_10000])
                    (name_at t_10000)) t_10000 [] in
  let s' := snd (rollback_release s) in
  earlier t_9998 t_9999 /\ earlier t_9999 t_10000
  /\ release_names s = [name_at t_10000; name_at t_9998; name_at t_9999]
  /\ fst (rollback_release s) = Ok None
  /\ current_rel (self s') = Some (name_at t_9998)
  /\ name_at t_9998 <> name_at t_9999
  /\ fst (current_release s') = Ok (name_at t_9998)
  /\ fst (current_release_path s') = Ok (release_dir (name_at t_9998)).
Proof.
  cbv zeta.
  split. { right. split; [reflexivity | apply Nat.ltb_lt; vm_compute; reflexivity]. }
  split. { right. split; [reflexivity | apply Nat.ltb_lt; vm_compute; reflexivity]. }
  split; [vm_compute; reflexivity|].
  split; [vm_compute; reflexivity|].
  split; [vm_compute; reflexivity|].
  split; [vm_compute; discriminate|].
  split; vm_compute; reflexivity.
Qed.

(** C6: a base path whose [releases] directory is there and empty.  The
    listing command exits with an error ([*] matches nothing), so
    [rollback_release] aborts with the error of [run]: it does not return
    [False] and it prints no warning.  The host is as it was. *)
Theorem rollback_without_releases_aborts :
  let s := fresh (layout []) t_10000 [] in
  let s' := snd (rollback_release s) in
  host (world s) !! (app ++ ["releases"]) = Some Dir
  /\ dir_names s = []
  /\ fst (rollback_release s) = Raised "run failed"
  /\ console (world s') = []
  /\ trace (world s') = [FindDirs (app ++ ["releases"])]
  /\ host (world s') = host (world s).
Proof.
  cbv zeta.
  split; [vm_compute; reflexivity|].
  split; [vm_compute; reflexivity|].
  split; [vm_compute; reflexivity|].
  split; [vm_compute; reflexivity|].
  split; [vm_compute; reflexivity|].
  reflexivity.
Qed.

End Runs.

(** * The theorems at concrete inputs *)

Module Witnesses.

Import Scenario.

(** [shared/uploads] is not there and may not be created. *)
Lemma link_shared_missing_is_fatal_witness :
  let s := fresh (layout three_names) t_10000 [] in
  fst (link_shared ["uploads"] false s) = Raised "Shared path does not exists"
  /\ host (world (snd (link_shared ["uploads"] false s))) = host (world s).
Proof.
  cbv zeta.
  destruct (link_shared_missing_is_fatal
              (fresh (layout three_names) t_10000 []) ["uploads"])
    as (H1 & H2 & _).
  - vm_compute. reflexivity.
  - split; [exact H1 | exact H2].
Defined.

(** A failed deploy during which [env.base_dir] was set to
    [/srv/app/shared]: that is what the revert removes. *)
Lemma revert_deletes_current_base_dir_witness :
  let s := mkState (set_rollback_stack [RevertRelease] (init app None))
                   (set_base_dir (Some (app ++ ["shared"]))
                                 (world_at (layout three_names) t_10000 [])) in
  let s' := snd (exit (Some "boom") s) in
  host (world s') !! (app ++ ["shared"; "log"]) = None
  /\ host (world s') !! release_dir "2013-01-03.36000" = Some Dir.
Proof.
  cbv zeta.
  destruct (revert_deletes_current_base_dir
              (mkState (set_rollback_stack [RevertRelease] (init app None))
                       (set_base_dir (Some (app ++ ["shared"]))
                                     (world_at (layout three_names) t_10000 [])))
              "boom" (app ++ ["shared"]))
    as (_ & _ & H3 & H4); try reflexivity.
  split.
  - apply H3. exists ["log"]. reflexivity.
  - rewrite H4.
    + vm_compute. reflexivity.
    + intros Hp. apply prefix_app_inv in Hp. apply prefix_cons_inv_1 in Hp.
      discriminate.
Defined.

End Witnesses.

(** * More of the class *)

(** ** The order of names *)

Lemma ascii_compare_refl (a : ascii) : (a ?= a)%char = Eq.
Proof. unfold Ascii.compare. apply N.compare_refl. Qed.

Lemma ascii_compare_lt_trans (a b c : ascii) :
  (a ?= b)%char = Lt -> (b ?= c)%char = Lt -> (a ?= c)%char = Lt.
Proof.
  unfold Ascii.compare. rewrite !N.compare_lt_iff. apply N.lt_trans.
Qed.

Lemma str_le_iff (s1 s2 : string) : str_le s1 s2 <-> (s1 ?= s2)%string <> Gt.
Proof.
  unfold str_le, String.leb. destruct (s1 ?= s2)%string; split; congruence.
Qed.

Lemma str_lt_iff (s1 s2 : string) : str_lt s1 s2 <-> (s1 ?= s2)%string = Lt.
Proof.
  unfold str_lt, String.ltb. destruct (s1 ?= s2)%string; split; congruence.
Qed.

#[global] Instance str_le_total : Total str_le.
Proof. intros s1 s2. apply String.leb_total. Qed.

#[global] Instance str_le_antisymm : AntiSymm eq str_le.
Proof. intros s1 s2. apply String.leb_antisym. Qed.

#[global] Instance str_le_trans : Transitive str_le.
Proof.
  intros s1. induction s1 as [|c1 s1 IH]; intros s2 s3; rewrite !str_le_iff.
  - destruct s3; simpl; discriminate.
  - destruct s2 as [|c2 s2]; [simpl; congruence|].
    destruct s3 as [|c3 s3]; simpl.
    { intros _ H. exfalso. apply H. reflexivity. }
    destruct (c1 ?= c2)%char eqn:E12; [| |congruence].
    + apply Ascii.compare_eq_iff in E12. subst c2.
      destruct (c1 ?= c3)%char; [|congruence..].
      rewrite <- !str_le_iff. apply IH.
    + destruct (c2 ?= c3)%char eqn:E23; [| |congruence].
      * apply Ascii.compare_eq_iff in E23. subst c3. rewrite E12. congruence.
      * rewrite (ascii_compare_lt_trans _ _ _ E12 E23). congruence.
Qed.

Lemma Sorted_sorted (l : list string) : Sorted str_le (sorted l).
Proof. apply Sorted_merge_sort. apply _. Qed.

Lemma StronglySorted_sorted (l : list string) : StronglySorted str_le (sorted l).
Proof. apply StronglySorted_merge_sort; apply _. Qed.

(** ** The list of releases *)


(** ** Setting up *)

Lemma setup_missing_raises (s : state) :
  exists_ (host (world s)) (base_path (self s)) = false ->
  fst (setup s) = Raised "Missing base path.".
Proof.
  intros H. unfold setup, bind, puts, modify, gets, exists_path, gets. simpl.
  rewrite H. reflexivity.
Qed.

(** X2: when the base path does not exist on the host, [setup] aborts with
    "Missing base path." before it sends any command: the host,
    [env.base_dir] and the object are as they were, and no release name has
    been generated. *)
Theorem setup_missing_base_path (s : state) :
  exists_ (host (world s)) (base_path (self s)) = false ->
  fst (setup s) = Raised "Missing base path."
  /\ host (world (snd (setup s))) = host (world s)
  /\ trace (world (snd (setup s))) = trace (world s)
  /\ base_dir (world (snd (setup s))) = base_dir (world s)
  /\ self (snd (setup s)) = self s.
Proof.
  intros H. unfold setup, bind, puts, modify, gets, exists_path, gets. simpl.
  rewrite H. simpl. repeat split.
Qed.

(** ** [mkdir -p] *)

Lemma mkdir_p_from_cases (h : gmap path node) (pre rest k : path) :
  mkdir_p_from h pre rest !! k = h !! k
  \/ (h !! k = None /\ mkdir_p_from h pre rest !! k = Some Dir).
Proof.
  revert h pre. induction rest as [|c rest IH]; intros h pre; simpl.
  - left. reflexivity.
  - destruct (h !! (pre ++ [c])) as [n|] eqn:E.
    + apply IH.
    + destruct (IH (<[pre ++ [c] := Dir]> h) (pre ++ [c])) as [H|[H1 H2]].
      * destruct (decide (k = pre ++ [c])) as [->|Hne].
        -- right. split; [exact E|]. rewrite H. apply lookup_insert_eq.
        -- left. rewrite H. apply lookup_insert_ne. congruence.
      * right. split; [|exact H2].
        destruct (decide (k = pre ++ [c])) as [->|Hne].
        -- exact E.
        -- rewrite lookup_insert_ne in H1 by congruence. exact H1.
Qed.

Lemma mkdir_p_from_other (h : gmap path node) (pre rest k : path) :
  ¬ k `prefix_of` (pre ++ rest) -> mkdir_p_from h pre rest !! k = h !! k.
Proof.
  revert h pre. induction rest as [|c rest IH]; intros h pre Hk; simpl.
  - reflexivity.
  - assert (Hk' : ¬ k `prefix_of` ((pre ++ [c]) ++ rest)).
    { rewrite <- app_assoc. exact Hk. }
    assert (Hne : pre ++ [c] <> k).
    { intros <-. apply Hk. exists rest. rewrite <- app_assoc. reflexivity. }
    destruct (h !! (pre ++ [c])).
    + apply IH, Hk'.
    + rewrite IH by exact Hk'. apply lookup_insert_ne, Hne.
Qed.

Lemma mkdir_p_from_target (h : gmap path node) (pre rest : path) :
  rest <> [] -> is_Some (mkdir_p_from h pre rest !! (pre ++ rest)).
Proof.
  revert h pre. induction rest as [|c rest IH]; intros h pre Hne; [congruence|].
  simpl. destruct rest as [|c' rest].
  - simpl. destruct (h !! (pre ++ [c])) eqn:E.
    + rewrite E. eexists; reflexivity.
    + rewrite lookup_insert_eq. eexists; reflexivity.
  - replace (pre ++ c :: c' :: rest) with ((pre ++ [c]) ++ c' :: rest)
      by (rewrite <- app_assoc; reflexivity).
    destruct (h !! (pre ++ [c])); apply IH; discriminate.
Qed.

Lemma mkdir_p_cases (h : gmap path node) (p k : path) :
  mkdir_p h p !! k = h !! k \/ (h !! k = None /\ mkdir_p h p !! k = Some Dir).
Proof. apply mkdir_p_from_cases. Qed.

Lemma mkdir_p_other (h : gmap path node) (p k : path) :
  ¬ k `prefix_of` p -> mkdir_p h p !! k = h !! k.
Proof. intros H. apply mkdir_p_from_other. exact H. Qed.

Lemma mkdir_p_target (h : gmap path node) (p : path) :
  p <> [] -> is_Some (mkdir_p h p !! p).
Proof. intros H. apply (mkdir_p_from_target h [] p H). Qed.

(** [mkdir -p] never turns a directory into something else and never
    removes an entry. *)
Lemma mkdir_p_keeps (h : gmap path node) (p k : path) (x : node) :
  h !! k = Some x -> mkdir_p h p !! k = Some x.
Proof.
  intros H. destruct (mkdir_p_cases h p k) as [E|[E _]]; congruence.
Qed.

(** ** Commands sent with [warn_only] *)

Lemma run_true_eq c s : run true c s = (Ok tt, ran_tolerant c s).
Proof.
  unfold run, ran_tolerant, ran, failed.
  destruct (next_fault (world s)) as [b fs]; simpl. destruct b; reflexivity.
Qed.

Lemma ran_tolerant_self c s : self (ran_tolerant c s) = self s.
Proof. unfold ran_tolerant. destruct (fst _); reflexivity. Qed.

Lemma ran_tolerant_frame c s :
  base_dir (world (ran_tolerant c s)) = base_dir (world s)
  /\ clock (world (ran_tolerant c s)) = clock (world s)
  /\ ticks (world (ran_tolerant c s)) = ticks (world s)
  /\ console (world (ran_tolerant c s)) = console (world s).
Proof. unfold ran_tolerant. destruct (fst _); repeat split. Qed.

Lemma ran_tolerant_host c s k :
  host (world (ran_tolerant c s)) !! k = host (world s) !! k
  \/ host (world (ran_tolerant c s)) !! k = effect c (host (world s)) !! k.
Proof. unfold ran_tolerant. destruct (fst _); [left | right]; reflexivity. Qed.

Lemma release_id_ext s s' :
  current_rel (self s') = current_rel (self s) ->
  clock (world s') = clock (world s) ->
  ticks (world s') = ticks (world s) ->
  release_id s' = release_id s.
Proof.
  unfold release_id. intros -> -> ->. reflexivity.
Qed.

Lemma bootstrap_step_self p s : self (bootstrap_step p s) = self s.
Proof.
  unfold bootstrap_step. destruct (exists_ _ _); [reflexivity|].
  apply ran_tolerant_self.
Qed.

Lemma bootstrap_step_frame p s :
  base_dir (world (bootstrap_step p s)) = base_dir (world s)
  /\ clock (world (bootstrap_step p s)) = clock (world s)
  /\ ticks (world (bootstrap_step p s)) = ticks (world s)
  /\ console (world (bootstrap_step p s)) = console (world s).
Proof.
  unfold bootstrap_step. destruct (exists_ _ _); [repeat split|].
  apply ran_tolerant_frame.
Qed.

(** A round of the loop leaves an entry as it is or makes a directory where
    there was nothing. *)
Lemma bootstrap_step_host p s k :
  host (world (bootstrap_step p s)) !! k = host (world s) !! k
  \/ (host (world s) !! k = None
      /\ host (world (bootstrap_step p s)) !! k = Some Dir).
Proof.
  unfold bootstrap_step, ran_tolerant.
  destruct (exists_ _ _); [left; reflexivity|].
  destruct (fst _); [left; reflexivity|].
  apply (mkdir_p_cases (host (world s)) p k).
Qed.

Lemma bootstrap_step_other p s k :
  ¬ k `prefix_of` p ->
  host (world (bootstrap_step p s)) !! k = host (world s) !! k.
Proof.
  intros Hk. unfold bootstrap_step, ran_tolerant.
  destruct (exists_ _ _); [reflexivity|].
  destruct (fst _); [reflexivity|].
  apply (mkdir_p_other (host (world s)) p k Hk).
Qed.

Lemma bootstrap_self s : self (bootstrap s) = self s.
Proof. unfold bootstrap. rewrite !bootstrap_step_self. reflexivity. Qed.

Lemma bootstrap_release_id s : release_id (bootstrap s) = release_id s.
Proof.
  unfold bootstrap.
  destruct (bootstrap_step_frame (shared_path (self s))
              (bootstrap_step (release_path (self s))
                 (put_line "Setting up release paths." s))) as (_ & Hc & Ht & _).
  destruct (bootstrap_step_frame (release_path (self s))
              (put_line "Setting up release paths." s)) as (_ & Hc' & Ht' & _).
  apply release_id_ext.
  - rewrite !bootstrap_step_self. reflexivity.
  - rewrite Hc, Hc'. reflexivity.
  - rewrite Ht, Ht'. reflexivity.
Qed.

Lemma bootstrap_base_dir s : base_dir (world (bootstrap s)) = base_dir (world s).
Proof.
  unfold bootstrap.
  destruct (bootstrap_step_frame (shared_path (self s))
              (bootstrap_step (release_path (self s))
                 (put_line "Setting up release paths." s))) as (Hb & _).
  destruct (bootstrap_step_frame (release_path (self s))
              (put_line "Setting up release paths." s)) as (Hb' & _).
  rewrite Hb, Hb'. reflexivity.
Qed.

Lemma bootstrap_host s k :
  host (world (bootstrap s)) !! k = host (world s) !! k
  \/ (host (world s) !! k = None /\ host (world (bootstrap s)) !! k = Some Dir).
Proof.
  unfold bootstrap.
  set (s0 := put_line _ s). set (s1 := bootstrap_step (release_path (self s)) s0).
  destruct (bootstrap_step_host (shared_path (self s)) s1 k) as [H|[H1 H2]];
    destruct (bootstrap_step_host (release_path (self s)) s0 k) as [H'|[H1' H2']].
  - left. exact (eq_trans H H').
  - right. split; [exact H1'|]. exact (eq_trans H H2').
  - right. split; [exact (eq_trans (eq_sym H') H1) | exact H2].
  - exfalso. subst s1. congruence.
Qed.

Lemma bootstrap_round p s :
  (e' <- exists_path p ;; when (negb e') (run true (MkdirP p))) s
  = (Ok tt, bootstrap_step p s).
Proof.
  unfold bind, exists_path, gets, bootstrap_step.
  destruct (exists_ (host (world s)) p); simpl; [reflexivity|].
  apply run_true_eq.
Qed.

Lemma setup_eq s :
  exists_ (host (world s)) (base_path (self s)) = true ->
  setup s = create_release (bootstrap s).
Proof.
  intros H. unfold setup.
  unfold bind at 1. unfold puts, modify.
  unfold bind at 1. unfold gets at 1.
  unfold bind at 1. unfold exists_path at 1, gets at 1. cbn [self world with_world host].
  change (host (set_console _ (world s))) with (host (world s)).
  rewrite H. cbn [negb when].
  unfold bind at 1. unfold ret at 1.
  unfold bind at 1. unfold gets at 1.
  unfold bind at 1. unfold gets at 1.
  unfold bind at 1. cbn [for_each].
  unfold bind at 1. rewrite bootstrap_round.
  unfold bind at 1. rewrite bootstrap_round.
  unfold ret. reflexivity.
Qed.

(** ** Creating the release *)

Lemma kept_refl d s : kept d s s.
Proof. repeat split; auto. Qed.

Lemma kept_trans d s1 s2 s3 : kept d s1 s2 -> kept d s2 s3 -> kept d s1 s3.
Proof.
  intros (Hs & Hb & Hd & Ho & Hi) (Hs' & Hb' & Hd' & Ho' & Hi').
  split; [congruence|]. split; [congruence|]. split; [|split].
  - intros k Hk. apply Hd', Hd, Hk.
  - intros k H1 H2. rewrite Ho'; [apply Ho; assumption| |assumption].
    rewrite Hs. exact H1.
  - intros k Hk. apply Hi', Hi, Hk.
Qed.

Lemma kept_failed d c s : kept d s (failed c s).
Proof. repeat split; auto. Qed.

Lemma kept_mkdir d n s :
  exists_ (host (world s)) (join (shared_path (self s)) n) = false ->
  kept d s (ran (Mkdir (join (shared_path (self s)) n)) s).
Proof.
  intros He. split; [reflexivity|]. split; [reflexivity|]. split; [|split].
  - intros k Hk. rewrite ran_host. simpl. unfold mkdir.
    destruct (decide (join (shared_path (self s)) n = k)) as [->|Hne].
    + apply lookup_insert_eq.
    + rewrite lookup_insert_ne by exact Hne. exact Hk.
  - intros k H1 _. rewrite ran_host. simpl. unfold mkdir.
    apply lookup_insert_ne. intros <-. apply H1. exists n. reflexivity.
  - intros k Hk. rewrite ran_host. simpl. unfold mkdir.
    rewrite lookup_insert_is_Some. destruct (decide (join (shared_path (self s)) n = k));
      [left; assumption | right; split; assumption].
Qed.

Lemma kept_ln_s d t n s :
  exists_ (host (world s)) (join d n) = false ->
  kept d s (ran (LnS t (join d n)) s).
Proof.
  intros He. apply exists_false_resolve in He as Hr.
  assert (Heff : effect (LnS t (join d n)) (host (world s))
                 = <[join d n := Link t]> (host (world s))).
  { simpl. unfold ln_s. rewrite Hr. reflexivity. }
  split; [reflexivity|]. split; [reflexivity|]. split; [|split].
  - intros k Hk. rewrite ran_host, Heff.
    rewrite lookup_insert_ne; [exact Hk|].
    intros <-. apply (exists_false_not_dir _ _ He).
    destruct (join d n); [reflexivity | exact Hk].
  - intros k _ H2. rewrite ran_host, Heff.
    apply lookup_insert_ne. intros <-. apply H2. exists n. reflexivity.
  - intros k Hk. rewrite ran_host, Heff.
    rewrite lookup_insert_is_Some. destruct (decide (join d n = k));
      [left; assumption | right; split; assumption].
Qed.

Lemma link_shared_kept s id n c :
  current_rel (self s) = Some id ->
  kept (join (release_path (self s)) [id]) s (snd (link_shared n c s)).
Proof.
  intros Hid. unfold link_shared.
  unfold bind at 1. rewrite (current_release_path_hit _ _ Hid).
  unfold bind at 1. unfold gets at 1.
  unfold bind at 1. unfold exists_path at 1, gets at 1.
  set (d := join (release_path (self s)) [id]).
  set (sd := join (shared_path (self s)) n).
  unfold bind at 1.
  assert (Hlink : forall s1, kept d s s1 ->
            kept d s (snd ((e' <- exists_path (join d n) ;;
                            when (negb e') (run false (LnS sd (join d n)))) s1))).
  { intros s1 Hk. unfold bind, exists_path, gets.
    destruct (exists_ (host (world s1)) (join d n)) eqn:E; simpl; [exact Hk|].
    destruct (run_cases (LnS sd (join d n)) s1) as [[_ ->]|[_ ->]]; simpl.
    - apply (kept_trans _ _ _ _ Hk).
      destruct Hk as (Hs & _).
      pose proof (kept_ln_s d sd n s1 E) as Hl.
      exact Hl.
    - apply (kept_trans _ _ _ _ Hk). apply kept_failed. }
  destruct (exists_ (host (world s)) sd) eqn:E; cbn [negb when].
  - unfold ret at 1. apply Hlink, kept_refl.
  - destruct c.
    + destruct (run_cases (Mkdir sd) s) as [[_ ->]|[_ ->]].
      * apply Hlink. apply kept_mkdir. exact E.
      * simpl. apply kept_failed.
    + unfold error, raise. simpl. apply kept_refl.
Qed.

Lemma for_each_link_shared_kept names s id :
  current_rel (self s) = Some id ->
  kept (join (release_path (self s)) [id]) s
       (snd (for_each names (fun n => link_shared n true) s)).
Proof.
  revert s. induction names as [|n names IH]; intros s Hid.
  - apply kept_refl.
  - cbn [for_each]. unfold bind.
    pose proof (link_shared_kept s id n true Hid) as Hk.
    destruct (link_shared n true s) as [[u|e] s1]; [|exact Hk].
    simpl in Hk. assert (Hs : self s1 = self s) by apply Hk.
    apply (kept_trans _ _ _ _ Hk).
    rewrite <- Hs. apply IH. rewrite Hs. exact Hid.
Qed.

Lemma put_line_release_id msg s : release_id (put_line msg s) = release_id s.
Proof. reflexivity. Qed.

Lemma created_self s :
  self (created s)
  = set_rollback_stack (rollback_stack (self s) ++ [RevertRelease])
      (set_current_rel (Some (release_id s)) (self s)).
Proof.
  unfold created, after_current_release, release_id.
  destruct s as [[bp sh [r|] pr rp cp sp st] w]; reflexivity.
Qed.

Lemma created_base_dir s :
  base_dir (world (created s)) = Some (join (release_path (self s)) [release_id s]).
Proof. reflexivity. Qed.

Lemma created_host s :
  host (world (created s))
  = mkdir_p (host (world s)) (join (release_path (self s)) [release_id s]).
Proof.
  destruct (after_current_release_frame (put_line "Creating new release path" s))
    as (Hh & _).
  cbv zeta in Hh.
  transitivity
    (mkdir_p (host (world (after_current_release
                             (put_line "Creating new release path" s))))
             (join (release_path (self s)) [release_id s])); [reflexivity|].
  rewrite Hh. reflexivity.
Qed.

Lemma create_release_fault s :
  fst (next_fault
         (world (with_world
                   (set_base_dir
                      (Some (join (release_path (self s))
                                  [release_id (put_line "Creating new release path" s)])))
                   (after_current_release (put_line "Creating new release path" s)))))
  = fst (next_fault (world s)).
Proof.
  destruct (after_current_release_frame (put_line "Creating new release path" s))
    as (_ & _ & Hfa & _).
  cbv zeta in Hfa. unfold next_fault. simpl. rewrite Hfa. reflexivity.
Qed.

Lemma create_release_ok s :
  fst (next_fault (world s)) = false ->
  create_release s
  = for_each (shared (self s)) (fun n => link_shared n true) (created s).
Proof.
  intros Hf. unfold create_release, bind, puts, modify, gets. simpl.
  rewrite current_release_path_eq. simpl.
  rewrite run_ok by exact (eq_trans (create_release_fault s) Hf).
  transitivity (for_each (shared (self (created s)))
                         (fun n => link_shared n true) (created s));
    [reflexivity|].
  rewrite created_self. reflexivity.
Qed.

Lemma create_release_failed s :
  fst (next_fault (world s)) = true -> fst (create_release s) = Raised "run failed".
Proof.
  intros Hf. unfold create_release, bind, puts, modify, gets. simpl.
  rewrite current_release_path_eq. simpl.
  rewrite run_failed by exact (eq_trans (create_release_fault s) Hf).
  reflexivity.
Qed.

(** ** Entering the [with] statement *)

Lemma enter_Ok_inv s u s1 :
  enter s = (Ok u, s1) ->
  exists_ (host (world s)) (base_path (self s)) = true
  /\ fst (next_fault (world (bootstrap s))) = false
  /\ for_each (shared (self s)) (fun n => link_shared n true)
              (created (bootstrap s)) = (Ok tt, s1).
Proof.
  unfold enter, execute_pseudo_task, Transaction.enter. intros H.
  apply bind_Ok_inv in H as (u' & s' & H & Hr).
  unfold ret in Hr. injection Hr as _ <-.
  destruct (exists_ (host (world s)) (base_path (self s))) eqn:E.
  - split; [reflexivity|]. rewrite (setup_eq _ E) in H.
    destruct (fst (next_fault (world (bootstrap s)))) eqn:Ef.
    + pose proof (create_release_failed _ Ef) as Hc. rewrite H in Hc. discriminate.
    + split; [reflexivity|]. rewrite (create_release_ok _ Ef) in H.
      rewrite bootstrap_self in H. destruct u'. exact H.
  - pose proof (setup_missing_raises s E) as Hc. rewrite H in Hc. discriminate.
Qed.

Lemma shared_not_above_current (base k : path) :
  ¬ (join base ["shared"]) `prefix_of` (join base ["current"] ++ k).
Proof.
  unfold join. rewrite <- app_assoc. simpl.
  apply sibling_not_prefix. discriminate.
Qed.

Lemma current_not_above_shared (base k : path) :
  ¬ (join base ["current"]) `prefix_of` (join (join base ["shared"]) k).
Proof.
  unfold join. rewrite <- app_assoc. simpl.
  apply sibling_not_prefix. discriminate.
Qed.

Lemma siblings_of_base (base : path) (a b : string) :
  a <> b -> ¬ (join base [a]) `prefix_of` (join base [b]).
Proof. intros H. unfold join. apply sibling_not_prefix, H. Qed.

Lemma join_not_nil (p : path) (d : string) : join p [d] <> [].
Proof. unfold join. destruct p; discriminate. Qed.

(** What [__enter__] has done to the object and to [env.base_dir], and what
    linking has kept of the state in which the release was created. *)
Lemma enter_object (s : state) (u : unit) (s1 : state) :
  enter s = (Ok u, s1) ->
  let d := join (release_path (self s)) [release_id s] in
  base_dir (world s1) = Some d
  /\ self s1
     = set_rollback_stack (rollback_stack (self s) ++ [RevertRelease])
         (set_current_rel (Some (release_id s)) (self s))
  /\ kept d (created (bootstrap s)) s1.
Proof.
  intros H. cbv zeta.
  apply enter_Ok_inv in H as (_ & _ & H).
  set (sb := bootstrap s) in *. set (sc := created sb) in *.
  assert (Hsb : self sb = self s) by apply bootstrap_self.
  assert (Hid : release_id sb = release_id s) by apply bootstrap_release_id.
  assert (Hsc : self sc
                = set_rollback_stack (rollback_stack (self s) ++ [RevertRelease])
                    (set_current_rel (Some (release_id s)) (self s))).
  { unfold sc. rewrite created_self, Hsb, Hid. reflexivity. }
  assert (Hcur : current_rel (self sc) = Some (release_id s)).
  { rewrite Hsc. reflexivity. }
  pose proof (for_each_link_shared_kept (shared (self s)) sc _ Hcur) as Hk.
  rewrite H in Hk. cbn [snd] in Hk.
  assert (Hrp : release_path (self sc) = release_path (self s)).
  { rewrite Hsc. reflexivity. }
  rewrite Hrp in Hk.
  destruct Hk as (Hs1 & Hb1 & Hrest).
  split. { rewrite Hb1. unfold sc. rewrite created_base_dir, Hsb, Hid. reflexivity. }
  split. { rewrite Hs1. exact Hsc. }
  split; [exact Hs1|]. split; [exact Hb1 | exact Hrest].
Qed.

(** X3: when [__enter__] returns, [env.base_dir] is the path of the new
    release, whose name is the one cached in the object; the revert has been
    added to the end of the rollback stack; the release path is an entry of
    the host, a directory if nothing was there before; and [current] is what
    it was. *)
Theorem enter_prepares_release (s : state) (u : unit) (s1 : state) :
  paths_ok (self s) ->
  enter s = (Ok u, s1) ->
  let d := join (release_path (self s)) [release_id s] in
  base_dir (world s1) = Some d
  /\ self s1
     = set_rollback_stack (rollback_stack (self s) ++ [RevertRelease])
         (set_current_rel (Some (release_id s)) (self s))
  /\ is_Some (host (world s1) !! d)
  /\ (host (world s) !! d = None -> host (world s1) !! d = Some Dir)
  /\ host (world s1) !! current_path (self s)
     = host (world s) !! current_path (self s).
Proof.
  intros (Erp & Ecp & Esp) H. cbv zeta.
  destruct (enter_object s u s1 H) as (Hbd & Hself & Hk). cbv zeta in Hbd, Hk.
  set (sb := bootstrap s) in *. set (sc := created sb) in *.
  set (d := join (release_path (self s)) [release_id s]) in *.
  assert (Hsb : self sb = self s) by apply bootstrap_self.
  assert (Hid : release_id sb = release_id s) by apply bootstrap_release_id.
  assert (Hspc : shared_path (self sc) = shared_path (self s)).
  { unfold sc. rewrite created_self, Hsb. reflexivity. }
  destruct Hk as (_ & _ & Hd1 & Ho1 & Hi1).
  assert (Hhost : host (world sc) = mkdir_p (host (world sb)) d).
  { unfold sc. rewrite created_host, Hsb, Hid. reflexivity. }
  split; [exact Hbd|]. split; [exact Hself|].
  split. { apply Hi1. rewrite Hhost. apply mkdir_p_target, join_not_nil. }
  split.
  - intros Hnone. apply Hd1. rewrite Hhost.
    pose proof (mkdir_p_target (host (world sb)) d (join_not_nil _ _)) as [x Hx].
    destruct (bootstrap_host s d) as [Hb|[_ Hb]]; fold sb in Hb.
    + rewrite Hnone in Hb.
      destruct (mkdir_p_cases (host (world sb)) d d) as [Hc|[_ Hc]]; [|exact Hc].
      congruence.
    + apply mkdir_p_keeps, Hb.
  - rewrite Ho1.
    + rewrite Hhost. rewrite mkdir_p_other.
      * unfold sb, bootstrap. rewrite !bootstrap_step_other; [reflexivity| |].
        -- rewrite Erp, Ecp. apply siblings_of_base. discriminate.
        -- rewrite Esp, Ecp. apply siblings_of_base. discriminate.
      * unfold d. rewrite Erp, Ecp. apply current_not_above_releases.
    + rewrite Hspc, Esp, Ecp. apply siblings_of_base. discriminate.
    + unfold d. rewrite Erp, Ecp. apply releases_not_above_current.
Qed.

(** ** A body that fails *)

(** X4: the body raises after [__enter__] has returned, on an object whose
    rollback stack was empty, leaving [env.base_dir] and the stack as
    [__enter__] set them, and the host carries out the revert.  Then the
    [with] statement raises what the body raised, nothing is left at or below
    the new release path, [current] is as the body left it, and the stack is
    empty again. *)
Theorem failed_body_is_reverted (body : M unit) (s s1 s2 : state) (e : string) :
  paths_ok (self s) ->
  rollback_stack (self s) = [] ->
  enter s = (Ok tt, s1) ->
  body s1 = (Raised e, s2) ->
  base_dir (world s2) = base_dir (world s1) ->
  rollback_stack (self s2) = rollback_stack (self s1) ->
  fst (next_fault (world s2)) = false ->
  let d := join (release_path (self s)) [release_id s] in
  let s3 := snd (with_release body s) in
  fst (with_release body s) = Raised e
  /\ (forall k, d `prefix_of` k -> host (world s3) !! k = None)
  /\ exists_ (host (world s3)) d = false
  /\ host (world s3) !! current_path (self s)
     = host (world s2) !! current_path (self s)
  /\ rollback_stack (self s3) = [].
Proof.
  intros Hp Hst He Hb Hbd Hrs Hf. cbv zeta.
  destruct (enter_object s tt s1 He) as (Hd & Hs1 & _).
  cbv zeta in Hd.
  assert (Hst2 : rollback_stack (self s2) = [RevertRelease]).
  { rewrite Hrs, Hs1. simpl. rewrite Hst. reflexivity. }
  assert (Hbd2 : base_dir (world s2)
                 = Some (join (release_path (self s)) [release_id s])).
  { rewrite Hbd. exact Hd. }
  assert (Hw : with_release body s
               = (Raised e, snd (exit (Some e) s2))).
  { unfold with_release. rewrite He, Hb.
    rewrite (exit_failure_eq s2 e _ Hst2 Hbd2 Hf). reflexivity. }
  rewrite Hw. simpl fst. simpl snd.
  rewrite (exit_failure_eq s2 e _ Hst2 Hbd2 Hf). simpl snd.
  set (d := join (release_path (self s)) [release_id s]).
  assert (Hgone : forall k, d `prefix_of` k ->
            host (world (with_self (set_rollback_stack [])
              (ran (RmRf d)
                 (with_world
                    (fun w => set_console (Warn "Release failed." :: console w) w)
                    s2)))) !! k = None).
  { intros k Hk. apply (rm_rf_below (host (world s2)) d k Hk). }
  split; [reflexivity|]. split; [exact Hgone|]. split; [|split].
  - unfold exists_. apply bool_decide_eq_false. intros [q Hq].
    unfold max_links in Hq. simpl in Hq.
    rewrite entry_lookup in Hq by apply join_not_nil.
    rewrite Hgone in Hq by reflexivity. discriminate.
  - apply (rm_rf_other (host (world s2)) d).
    destruct Hp as (Erp & Ecp & _). unfold d. rewrite Erp, Ecp.
    apply releases_not_above_current.
  - reflexivity.
Qed.

(** ** Promotion, for any object *)

Lemma after_current_release_id s :
  current_rel (self (after_current_release s)) = Some (release_id s).
Proof. apply after_current_release_cached. Qed.

Lemma symlink_Ok_inv_gen s u s' :
  symlink s = (Ok u, s') ->
  s' = ran (LnNfs (join (release_path (self s)) [release_id s]) (current_path (self s)))
           (after_current_release
              (if exists_ (host (world s)) (current_path (self s))
               then ran (RmRf (current_path (self s))) s else s)).
Proof.
  unfold symlink. intros H.
  apply bind_Ok_inv in H as (cp & s1 & H1 & H).
  unfold gets in H1. injection H1 as <- <-.
  apply bind_Ok_inv in H as (e & s1 & H1 & H).
  unfold exists_path, gets in H1. injection H1 as <- <-.
  apply bind_Ok_inv in H as (u1 & s1 & H1 & H).
  apply bind_Ok_inv in H as (p & s2 & H2 & H).
  apply run_Ok_inv in H as [_ ->].
  rewrite current_release_path_eq in H2. injection H2 as <- <-.
  destruct (exists_ (host (world s)) (current_path (self s))).
  - simpl in H1. apply run_Ok_inv in H1 as [_ ->]. reflexivity.
  - simpl in H1. unfold ret in H1. injection H1 as H1. subst s1. reflexivity.
Qed.

(** X5: once [symlink] has completed, [current] is a link to the path of
    the current release, the name of that release is cached in the object,
    and no entry outside [current] has changed: releases and shared paths
    are not touched. *)
Theorem symlink_promotes (s : state) (u : unit) (s' : state) :
  paths_ok (self s) ->
  symlink s = (Ok u, s') ->
  host (world s') !! current_path (self s)
  = Some (Link (join (release_path (self s)) [release_id s]))
  /\ current_rel (self s') = Some (release_id s)
  /\ (forall k, ¬ current_path (self s) `prefix_of` k ->
        host (world s') !! k = host (world s) !! k).
Proof.
  intros Hp H. apply symlink_Ok_inv_gen in H. subst s'.
  pose proof (current_path_not_nil _ Hp) as Hne.
  set (cp := current_path (self s)) in *.
  set (s1 := if exists_ (host (world s)) cp then ran (RmRf cp) s else s).
  destruct (after_current_release_frame s1) as (Hh & _). cbv zeta in Hh.
  assert (Hid : release_id s1 = release_id s).
  { unfold s1. destruct (exists_ _ _); reflexivity. }
  assert (Hnd : entry (host (world s1)) cp <> Some Dir).
  { unfold s1. destruct (exists_ (host (world s)) cp) eqn:E.
    - rewrite entry_lookup by exact Hne. rewrite ran_host. simpl.
      rewrite rm_rf_below by reflexivity. discriminate.
    - apply exists_false_not_dir, E. }
  assert (Hs1 : forall k, ¬ cp `prefix_of` k ->
                          host (world s1) !! k = host (world s) !! k).
  { intros k Hk. unfold s1. destruct (exists_ _ _); [|reflexivity].
    rewrite ran_host. simpl. apply rm_rf_other, Hk. }
  rewrite ran_host. simpl effect. rewrite Hh.
  rewrite ln_nfs_at by exact Hnd.
  split; [apply lookup_insert_eq|]. split.
  - rewrite ran_self. rewrite after_current_release_id. rewrite Hid. reflexivity.
  - intros k Hk. rewrite lookup_insert_ne.
    + apply Hs1, Hk.
    + intros ->. apply Hk. reflexivity.
Qed.

(** ** Pruning *)

Lemma for_each_run_no_faults (cs : list command) s :
  no_faults (world s) ->
  for_each cs (fun c => run false c) s = (Ok tt, ran_all cs s)
  /\ no_faults (world (ran_all cs s)).
Proof.
  revert s. induction cs as [|c cs IH]; intros s Hnf.
  - split; [reflexivity | exact Hnf].
  - cbn [for_each ran_all foldl]. unfold bind.
    rewrite run_ok by (apply next_fault_no_faults, Hnf).
    apply IH, no_faults_ran, Hnf.
Qed.

Lemma for_each_map {A B} (f : A -> B) (g : B -> M unit) (l : list A) s :
  for_each l (fun x => g (f x)) s = for_each (map f l) g s.
Proof.
  revert s. induction l as [|x l IH]; intros s; [reflexivity|].
  cbn [for_each map]. unfold bind. destruct (g (f x) s) as [[u|e] s1]; [apply IH | reflexivity].
Qed.

Lemma ran_all_self cs s : self (ran_all cs s) = self s.
Proof.
  revert s. induction cs as [|c cs IH]; intros s; [reflexivity|].
  cbn [ran_all foldl]. apply (IH (ran c s)).
Qed.

Lemma ran_all_removals_host rp ds s k :
  host (world (ran_all (removals rp ds) s)) !! k
  = if decide (Exists (fun d => join rp [d] `prefix_of` k) ds)
    then None else host (world s) !! k.
Proof.
  revert s. induction ds as [|d ds IH]; intros s.
  - cbn [removals map ran_all foldl].
    rewrite decide_False; [reflexivity | intros H; inversion H].
  - cbn [removals map ran_all foldl]. fold (removals rp ds).
    fold (ran_all (removals rp ds) (ran (RmRf (join rp [d])) s)).
    rewrite IH. rewrite ran_host. simpl effect. rewrite lookup_rm_rf.
    destruct (decide (Exists _ ds)) as [H|H].
    + rewrite decide_True by (right; exact H). reflexivity.
    + destruct (decide (join rp [d] `prefix_of` k)) as [Hd|Hd].
      * rewrite decide_True by (left; exact Hd). reflexivity.
      * rewrite decide_False; [reflexivity|].
        intros Hex. inversion Hex; subst; contradiction.
Qed.

Lemma child_prefix_iff (rp : path) (d d' : string) :
  join rp [d] `prefix_of` join rp [d'] <-> d = d'.
Proof.
  unfold join. split.
  - intros H. apply prefix_app_inv, prefix_cons_inv_1 in H. exact H.
  - intros ->. reflexivity.
Qed.

Lemma child_under (rp : path) (d : string) (k : path) :
  join rp [d] `prefix_of` k -> rp `prefix_of` k.
Proof.
  intros [q ->]. exists (d :: q). unfold join. rewrite <- app_assoc. reflexivity.
Qed.

Lemma excess_eq (rels : list string) :
  excess rels = rev (take (length rels - keep) rels).
Proof. unfold excess. apply skipn_rev. Qed.

Lemma elem_of_excess (rels : list string) (d : string) :
  d ∈ excess rels <-> d ∈ take (length rels - keep) rels.
Proof. rewrite excess_eq, !list_elem_of_In. symmetry. apply in_rev. Qed.

Lemma cleanup_eq s :
  fst (next_fault (world s)) = false ->
  listable s ->
  cleanup s
  = for_each (removals (release_path (self s)) (excess (release_names s)))
             (fun c => run false c)
             (ran (FindDirs (release_path (self s)))
                  (put_line "Cleaning up releases." s)).
Proof.
  intros Hf Hl. unfold cleanup, bind, puts, modify. simpl.
  fold (put_line "Cleaning up releases." s).
  rewrite releases_ok by assumption.
  unfold gets. simpl.
  change (release_names (put_line "Cleaning up releases." s)) with (release_names s).
  unfold removals. rewrite <- for_each_map.
  fold (excess (release_names s)).
  destruct (keep <? length (release_names s))%nat eqn:E; simpl; [reflexivity|].
  apply Nat.ltb_ge in E. unfold excess.
  rewrite drop_ge by (rewrite length_rev; exact E). reflexivity.
Qed.

(** Where the listing exits with an error, [cleanup] aborts and the host is
    as it was. *)
Lemma cleanup_unlistable s :
  fst (next_fault (world s)) = false ->
  can_list (host (world s)) (release_path (self s)) = false ->
  cleanup s
  = (Raised "run failed",
     ran (FindDirs (release_path (self s))) (put_line "Cleaning up releases." s)).
Proof.
  intros Hf Hl. unfold cleanup, bind, puts, modify. simpl.
  fold (put_line "Cleaning up releases." s).
  rewrite releases_unlistable by assumption. reflexivity.
Qed.

Lemma elem_of_drop_NoDup {A} (l : list A) (m : nat) (x : A) :
  NoDup l -> x ∈ drop m l <-> x ∈ l /\ x ∉ take m l.
Proof.
  intros Hnd. rewrite <- (take_drop m l) in Hnd at 1.
  apply NoDup_app in Hnd as (_ & Hdis & _).
  split.
  - intros H. split.
    + rewrite <- (take_drop m l). apply elem_of_app. right. exact H.
    + intros Ht. apply (Hdis x Ht H).
  - intros [H Hn]. rewrite <- (take_drop m l) in H.
    apply elem_of_app in H as [H|H]; [contradiction | exact H].
Qed.

Lemma NoDup_drop_of {A} (l : list A) (m : nat) : NoDup l -> NoDup (drop m l).
Proof.
  intros H. rewrite <- (take_drop m l) in H.
  apply NoDup_app in H as (_ & _ & H). exact H.
Qed.

Lemma StronglySorted_drop (l : list string) (m : nat) :
  StronglySorted str_le l -> StronglySorted str_le (drop m l).
Proof.
  intros H. rewrite <- (take_drop m l) in H.
  apply StronglySorted_app_1_r in H. exact H.
Qed.

(** What is listed after the names [ds] have been removed from under [rp]. *)
Lemma find_dirs_after_removals rp ds s (d : string) :
  d ∈ find_dirs (host (world (ran_all (removals rp ds) s))) rp
  <-> d ∈ find_dirs (host (world s)) rp /\ d ∉ ds.
Proof.
  rewrite !elem_of_find_dirs. rewrite ran_all_removals_host.
  destruct (decide (Exists _ ds)) as [H|H].
  - apply Exists_exists in H as (d' & Hin & Hp).
    apply child_prefix_iff in Hp. subst d'.
    split; [intros [? _]; discriminate | intros [_ Hn]; contradiction].
  - split.
    + intros [H1 H2]. split; [split; assumption|].
      intros Hin. apply H. apply Exists_exists. exists d. split; [exact Hin|].
      apply child_prefix_iff. reflexivity.
    + intros [[H1 H2] _]. split; assumption.
Qed.

Lemma cleanup_no_faults_eq (s : state) :
  no_faults (world s) ->
  listable s ->
  cleanup s
  = (Ok tt,
     ran_all (removals (release_path (self s)) (excess (release_names s)))
             (ran (FindDirs (release_path (self s)))
                  (put_line "Cleaning up releases." s))).
Proof.
  intros Hnf Hl. rewrite cleanup_eq by (try apply next_fault_no_faults; assumption).
  apply for_each_run_no_faults. apply no_faults_ran. exact Hnf.
Qed.

(** Names that [str.split()] leaves whole stay so when some are removed. *)
Lemma plain_after_removals rp ds s0 :
  Forall plain (find_dirs (host (world s0)) rp) ->
  Forall plain (find_dirs (host (world (ran_all (removals rp ds) s0))) rp).
Proof.
  intros H. apply List.Forall_forall. intros d Hd.
  rewrite List.Forall_forall in H. apply H.
  apply list_elem_of_In. apply list_elem_of_In in Hd.
  apply find_dirs_after_removals in Hd as [Hd _]. exact Hd.
Qed.

(** The names listed once the excess has been removed. *)
Lemma release_names_pruned (s s0 : state) :
  Forall plain (dir_names s) ->
  self s0 = self s -> host (world s0) = host (world s) ->
  release_names
    (ran_all (removals (release_path (self s)) (excess (release_names s))) s0)
  = drop (length (release_names s) - keep) (release_names s).
Proof.
  intros Hplain Hself Hhost.
  assert (Hplain' : Forall plain
            (dir_names (ran_all (removals (release_path (self s))
                                          (excess (release_names s))) s0))).
  { unfold dir_names. rewrite ran_all_self, Hself.
    apply plain_after_removals. rewrite Hhost. exact Hplain. }
  rewrite (release_names_plain _ Hplain'), (release_names_plain _ Hplain).
  apply (StronglySorted_unique str_le).
  - apply StronglySorted_sorted.
  - apply StronglySorted_drop, StronglySorted_sorted.
  - rewrite sorted_perm.
    apply NoDup_Permutation.
    + apply NoDup_find_dirs.
    + apply NoDup_drop_of, NoDup_sorted, NoDup_find_dirs.
    + intros d. unfold dir_names at 1. rewrite ran_all_self, Hself.
      rewrite find_dirs_after_removals, Hhost.
      rewrite elem_of_drop_NoDup by (apply NoDup_sorted, NoDup_find_dirs).
      rewrite elem_of_excess.
      rewrite elem_of_sorted. reflexivity.
Qed.



(** ** Rolling back, for any number of releases *)

Lemma rolled_back_other s new_rel old_rel k :
  current_path (self s) <> [] ->
  ¬ current_path (self s) `prefix_of` k ->
  ¬ join (release_path (self s)) [old_rel] `prefix_of` k ->
  host (world (rolled_back new_rel old_rel s)) !! k = host (world s) !! k.
Proof.
  intros Hne Hc Ho. unfold rolled_back.
  set (s3 := with_world _ _).
  pose proof (symlinked_host s3 new_rel Hne) as Hs. cbv zeta in Hs.
  destruct Hs as [_ Hs].
  rewrite ran_host. simpl effect.
  rewrite rm_rf_other by exact Ho.
  apply (Hs k Hc).
Qed.


(** ** Going back where there is nothing to go back to *)


(** X14: the host carries out the listing, and the release path is not a
    directory or holds no entry that [*] matches.  Then the listing exits
    with an error and [releases], [rollback_release] and [cleanup] abort
    with the error of [run]; [rollback_release] prints no warning, and the
    host is as it was. *)
Theorem unlistable_release_path_aborts (s : state) :
  fst (next_fault (world s)) = false ->
  can_list (host (world s)) (release_path (self s)) = false ->
  fst (releases s) = Raised "run failed"
  /\ fst (rollback_release s) = Raised "run failed"
  /\ fst (cleanup s) = Raised "run failed"
  /\ console (world (snd (rollback_release s))) = console (world s)
  /\ host (world (snd (rollback_release s))) = host (world s)
  /\ host (world (snd (cleanup s))) = host (world s).
Proof.
  intros Hf Hl.
  assert (E : rollback_release s
              = (Raised "run failed", ran (FindDirs (release_path (self s))) s)).
  { unfold rollback_release. unfold bind at 1.
    rewrite (releases_unlistable _ Hf Hl). reflexivity. }
  rewrite E, (cleanup_unlistable _ Hf Hl), (releases_unlistable _ Hf Hl).
  cbn [fst snd].
  split; [reflexivity|]. split; [reflexivity|]. split; [reflexivity|].
  split; [reflexivity|]. split; reflexivity.
Qed.

(** ** A deploy that succeeds *)

Lemma dir_names_ext s s' :
  release_path (self s') = release_path (self s) ->
  (forall d, host (world s') !! join (release_path (self s)) [d]
             = host (world s) !! join (release_path (self s)) [d]) ->
  dir_names s' ≡ₚ dir_names s.
Proof.
  intros Hrp Hh. unfold dir_names.
  apply NoDup_Permutation; [apply NoDup_find_dirs..|].
  intros d. rewrite !elem_of_find_dirs, Hrp, Hh. reflexivity.
Qed.

Lemma release_names_ext s s' :
  release_path (self s') = release_path (self s) ->
  (forall d, host (world s') !! join (release_path (self s)) [d]
             = host (world s) !! join (release_path (self s)) [d]) ->
  release_names s' = release_names s.
Proof.
  intros Hrp Hh. apply (StronglySorted_unique str_le).
  - apply StronglySorted_sorted.
  - apply StronglySorted_sorted.
  - unfold release_names. rewrite !sorted_perm, !split_lines.
    apply Permutation_flat_map. apply (dir_names_ext s s' Hrp Hh).
Qed.

Lemma greatest_in_drop (rels : list string) (x : string) (m : nat) :
  StronglySorted str_le rels -> NoDup rels ->
  x ∈ rels -> (forall n, n ∈ rels -> str_le n x) ->
  m < length rels -> x ∈ drop m rels.
Proof.
  intros Hs Hnd Hx Hmax Hm.
  apply elem_of_drop_NoDup; [exact Hnd|]. split; [exact Hx|].
  intros Ht. apply elem_of_take in Ht as (i & Hi & Him).
  destruct (lookup_lt_is_Some_2 rels (length rels - 1)) as [y Hy]; [lia|].
  assert (Hxy : str_le x y).
  { rewrite <- (take_drop (length rels - 1) rels) in Hs.
    apply (StronglySorted_app_1_elem_of _ _ _ x y Hs).
    - apply elem_of_take. exists i. split; [exact Hi | lia].
    - apply list_elem_of_lookup. exists 0. rewrite lookup_drop.
      rewrite Nat.add_0_r. exact Hy. }
  assert (Hyx : str_le y x).
  { apply Hmax. apply list_elem_of_lookup. exists (length rels - 1). exact Hy. }
  assert (x = y) by (apply (anti_symm str_le); assumption). subst y.
  pose proof (NoDup_lookup _ _ _ _ Hnd Hi Hy). lia.
Qed.

Lemma exit_success_eq s id :
  current_rel (self s) = Some id ->
  no_faults (world s) ->
  listable (symlinked id (put_line "Release successful." s)) ->
  exit None s
  = (Ok tt,
     with_self (set_rollback_stack [])
       (snd (cleanup (symlinked id (put_line "Release successful." s))))).
Proof.
  intros Hid Hnf Hl. unfold exit, execute_pseudo_task.
  unfold bind at 1. unfold bind at 1. unfold puts at 1, modify at 1.
  fold (put_line "Release successful." s).
  unfold bind at 1.
  destruct (symlink_no_faults (put_line "Release successful." s) id Hid Hnf)
    as [Hsym Hnf'].
  rewrite Hsym.
  rewrite (cleanup_no_faults_eq _ Hnf' Hl). cbn [snd].
  unfold Transaction.exit, bind, gets, modify. simpl. reflexivity.
Qed.


(** ** Linking a shared path *)

Lemma exists_absent (h : gmap path node) (p : path) :
  p <> [] -> h !! p = None -> exists_ h p = false.
Proof.
  intros Hne Hp. unfold exists_. apply bool_decide_eq_false. intros [q Hq].
  unfold max_links in Hq. simpl in Hq.
  rewrite entry_lookup in Hq by exact Hne. rewrite Hp in Hq. discriminate.
Qed.

Lemma resolve_link (f : nat) (h : gmap path node) (p t : path) :
  entry h p = Some (Link t) -> resolve (S f) h p = resolve f h t.
Proof. intros H. simpl. rewrite H. reflexivity. Qed.

Lemma exists_link_to_dir (h : gmap path node) (p t : path) :
  entry h p = Some (Link t) -> entry h t = Some Dir -> exists_ h p = true.
Proof.
  intros Hp Ht. unfold exists_. apply bool_decide_eq_true.
  unfold max_links. rewrite (resolve_link _ _ _ _ Hp).
  rewrite (resolve_dir _ _ _ Ht). eexists; reflexivity.
Qed.

Lemma app_not_nil_r {A} (p n : list A) : n <> [] -> p ++ n <> [].
Proof. intros H E. apply app_eq_nil in E as [_ E]. contradiction. Qed.

(** X10: [link_shared(name, create=True)] for a name that is neither under
    the shared path nor in the release yet, when the host carries out its
    commands: the shared directory is made with [mkdir], the release gets a
    link of that name to it with [ln -s], and nothing else is sent.  Linking
    the same name again, with or without [create], then sends no command and
    changes nothing. *)
Theorem link_shared_links_once (s : state) (id : string) (n : path) :
  paths_ok (self s) ->
  current_rel (self s) = Some id ->
  n <> [] ->
  let sd := join (shared_path (self s)) n in
  let rel := join (join (release_path (self s)) [id]) n in
  host (world s) !! sd = None ->
  host (world s) !! rel = None ->
  no_faults (world s) ->
  let s1 := snd (link_shared n true s) in
  fst (link_shared n true s) = Ok tt
  /\ host (world s1) !! sd = Some Dir
  /\ host (world s1) !! rel = Some (Link sd)
  /\ trace (world s1) = LnS sd rel :: Mkdir sd :: trace (world s)
  /\ (forall k, k <> sd -> k <> rel -> host (world s1) !! k = host (world s) !! k)
  /\ (forall create, link_shared n create s1 = (Ok tt, s1)).
Proof.
  intros (Erp & _ & Esp) Hid Hn. cbv zeta. intros Hsd Hrel Hnf.
  set (sd := join (shared_path (self s)) n) in *.
  set (rel := join (join (release_path (self s)) [id]) n) in *.
  assert (Hsdne : sd <> []) by (apply app_not_nil_r, Hn).
  assert (Hrelne : rel <> []) by (apply app_not_nil_r, Hn).
  assert (Hdiff : sd <> rel).
  { unfold sd, rel. rewrite Esp, Erp. unfold join.
    rewrite <- !app_assoc. simpl. apply sibling_ne. discriminate. }
  set (sa := ran (Mkdir sd) s).
  assert (Hrela : exists_ (host (world sa)) rel = false).
  { apply exists_absent; [exact Hrelne|].
    unfold sa. rewrite ran_host. simpl. unfold mkdir.
    rewrite lookup_insert_ne by exact Hdiff. exact Hrel. }
  assert (Hlns : effect (LnS sd rel) (host (world sa))
                 = <[rel := Link sd]> (<[sd := Dir]> (host (world s)))).
  { change (effect (LnS sd rel) (host (world sa)))
      with (ln_s (host (world sa)) sd rel).
    unfold ln_s. rewrite (exists_false_resolve _ _ Hrela). reflexivity. }
  assert (E : link_shared n true s = (Ok tt, ran (LnS sd rel) sa)).
  { unfold link_shared, bind. rewrite (current_release_path_hit _ _ Hid).
    unfold gets, exists_path, gets. simpl.
    fold sd. fold rel.
    rewrite (exists_absent _ _ Hsdne Hsd). simpl.
    rewrite run_ok by (apply next_fault_no_faults, Hnf). fold sa.
    rewrite Hrela. simpl.
    rewrite run_ok by (apply next_fault_no_faults, no_faults_ran, Hnf).
    reflexivity. }
  rewrite E. cbn [fst snd].
  set (s1 := ran (LnS sd rel) sa).
  assert (Hh1 : host (world s1) = <[rel := Link sd]> (<[sd := Dir]> (host (world s)))).
  { unfold s1. rewrite ran_host. exact Hlns. }
  assert (H1sd : host (world s1) !! sd = Some Dir).
  { rewrite Hh1. rewrite lookup_insert_ne by congruence. apply lookup_insert_eq. }
  assert (H1rel : host (world s1) !! rel = Some (Link sd)).
  { rewrite Hh1. apply lookup_insert_eq. }
  split; [reflexivity|]. split; [exact H1sd|]. split; [exact H1rel|].
  split; [reflexivity|].
  split. { intros k H1 H2. rewrite Hh1, !lookup_insert_ne by congruence. reflexivity. }
  intros create.
  assert (Hex1 : exists_ (host (world s1)) sd = true).
  { apply exists_dir. rewrite entry_lookup by exact Hsdne. exact H1sd. }
  assert (Hex2 : exists_ (host (world s1)) rel = true).
  { apply (exists_link_to_dir _ _ sd).
    - rewrite entry_lookup by exact Hrelne. exact H1rel.
    - rewrite entry_lookup by exact Hsdne. exact H1sd. }
  unfold link_shared, bind.
  rewrite (current_release_path_hit s1 id) by exact Hid.
  unfold gets, exists_path, gets.
  change (shared_path (self s1)) with (shared_path (self s)).
  change (release_path (self s1)) with (release_path (self s)).
  fold sd. fold rel. rewrite Hex1. cbn [negb when]. unfold ret.
  rewrite Hex2. reflexivity.
Qed.

(** ** Names and time *)

Lemma digit_char_compare (i j : nat) :
  i < 10 -> j < 10 -> (digit_char i ?= digit_char j)%char = (i ?= j)%nat.
Proof.
  intros Hi Hj.
  do 10 (destruct i as [|i]; [do 10 (destruct j as [|j]; [reflexivity|]); lia|]).
  lia.
Qed.

Lemma string_append_assoc (a b c : string) :
  ((a ++ b) ++ c)%string = (a ++ (b ++ c))%string.
Proof.
  induction a as [|x a IH]; [reflexivity|].
  change (String x ((a ++ b) ++ c) = String x (a ++ (b ++ c)))%string.
  f_equal. exact IH.
Qed.

Lemma compare_same_prefix (p s t : string) :
  ((p ++ s) ?= (p ++ t))%string = (s ?= t)%string.
Proof.
  induction p as [|c p IH]; [reflexivity|].
  change (match (c ?= c)%char with
          | Eq => ((p ++ s) ?= (p ++ t))%string
          | Lt => Lt
          | Gt => Gt
          end = (s ?= t)%string).
  rewrite ascii_compare_refl. exact IH.
Qed.

Lemma compare_cons (c1 c2 : ascii) (s1 s2 : string) :
  (String c1 s1 ?= String c2 s2)%string = lex (c1 ?= c2)%char (s1 ?= s2)%string.
Proof.
  change (String c1 s1 ?= String c2 s2)%string
    with (match (c1 ?= c2)%char with
          | Eq => (s1 ?= s2)%string
          | Lt => Lt
          | Gt => Gt
          end).
  unfold lex. destruct (c1 ?= c2)%char; reflexivity.
Qed.

Lemma lex_step (a1 a2 x y : nat) (r : comparison) :
  x < 10 -> y < 10 ->
  lex (a1 ?= a2)%nat (lex (x ?= y)%nat r) = lex (10 * a1 + x ?= 10 * a2 + y)%nat r.
Proof.
  intros Hx Hy. unfold lex.
  destruct (Nat.compare_spec a1 a2) as [->|H|H].
  - destruct (Nat.compare_spec x y) as [->|H|H].
    + rewrite Nat.compare_refl. reflexivity.
    + rewrite (proj2 (Nat.compare_lt_iff _ _)) by lia. reflexivity.
    + rewrite (proj2 (Nat.compare_gt_iff _ _)) by lia. reflexivity.
  - rewrite (proj2 (Nat.compare_lt_iff _ _)) by lia. reflexivity.
  - rewrite (proj2 (Nat.compare_gt_iff _ _)) by lia. reflexivity.
Qed.

(** Two digit strings of the same length compare as the numbers they stand
    for, and what follows them decides between equal numbers. *)
Lemma compare_digits_from (l1 l2 : list nat) (s t : string) (a1 a2 : nat) :
  Forall (fun i => i < 10) l1 -> Forall (fun i => i < 10) l2 ->
  length l1 = length l2 ->
  lex (a1 ?= a2)%nat
      ((string_of_digits l1 ++ s) ?= (string_of_digits l2 ++ t))%string
  = lex (value_from a1 l1 ?= value_from a2 l2)%nat (s ?= t)%string.
Proof.
  revert l2 a1 a2. induction l1 as [|x l1 IH]; intros l2 a1 a2 H1 H2 Hlen.
  - destruct l2; [reflexivity | discriminate].
  - destruct l2 as [|y l2]; [discriminate|].
    apply Forall_cons in H1 as [Hx H1]. apply Forall_cons in H2 as [Hy H2].
    injection Hlen as Hlen.
    change ((string_of_digits (x :: l1) ++ s) ?= (string_of_digits (y :: l2) ++ t))%string
      with (String (digit_char x) (string_of_digits l1 ++ s)
            ?= String (digit_char y) (string_of_digits l2 ++ t))%string.
    rewrite compare_cons.
    rewrite (digit_char_compare x y Hx Hy).
    rewrite lex_step by assumption.
    rewrite (IH l2 (10 * a1 + x) (10 * a2 + y) H1 H2 Hlen). reflexivity.
Qed.

Lemma compare_digits (l1 l2 : list nat) (s t : string) :
  Forall (fun i => i < 10) l1 -> Forall (fun i => i < 10) l2 ->
  length l1 = length l2 ->
  ((string_of_digits l1 ++ s) ?= (string_of_digits l2 ++ t))%string
  = lex (value l1 ?= value l2)%nat (s ?= t)%string.
Proof.
  intros H1 H2 Hlen.
  exact (compare_digits_from l1 l2 s t 0 0 H1 H2 Hlen).
Qed.

Lemma value_from_cons (acc x : nat) (l : list nat) :
  value_from acc (x :: l) = value_from (10 * acc + x) l.
Proof. reflexivity. Qed.

Lemma of_uint_acc_digits (l : list nat) (acc : nat) :
  Forall (fun i => i < 10) l ->
  Nat.of_uint_acc (uint_of_digits l) acc = value_from acc l.
Proof.
  revert acc. induction l as [|x l IH]; intros acc H; [reflexivity|].
  apply Forall_cons in H as [Hx H]. rewrite value_from_cons.
  rewrite <- (IH (10 * acc + x) H).
  do 10 (destruct x as [|x];
         [cbn [uint_of_digits digit_uint Nat.of_uint_acc];
          rewrite Nat.tail_mul_spec; f_equal; lia|]).
  lia.
Qed.

Lemma string_of_uint_digits (l : list nat) :
  NilEmpty.string_of_uint (uint_of_digits l) = string_of_digits l.
Proof.
  induction l as [|x l IH]; [reflexivity|].
  do 9 (destruct x as [|x];
        [cbn [uint_of_digits digit_uint NilEmpty.string_of_uint string_of_digits
              digit_char];
         f_equal; exact IH|]).
  cbn [uint_of_digits digit_uint NilEmpty.string_of_uint string_of_digits digit_char].
  f_equal. exact IH.
Qed.

Lemma unorm_digits (h : nat) (t : list nat) :
  0 < h -> unorm (uint_of_digits (h :: t)) = uint_of_digits (h :: t).
Proof.
  intros Hh. destruct h as [|h]; [lia|].
  do 9 (destruct h as [|h]; [reflexivity|]). reflexivity.
Qed.

Lemma nilzero_digits (h : nat) (t : list nat) :
  NilZero.string_of_uint (uint_of_digits (h :: t)) = string_of_digits (h :: t).
Proof.
  rewrite <- string_of_uint_digits.
  do 9 (destruct h as [|h]; [reflexivity|]). reflexivity.
Qed.

Lemma digits_aux_spec (fuel n : nat) (acc : list nat) :
  n <= fuel -> Forall (fun i => i < 10) acc ->
  value (digits_aux fuel n acc) = value_from n acc
  /\ Forall (fun i => i < 10) (digits_aux fuel n acc)
  /\ (0 < n -> exists h t, digits_aux fuel n acc = h :: t /\ 0 < h).
Proof.
  revert n acc. induction fuel as [|f IH]; intros n acc Hn Hacc.
  - assert (n = 0) by lia. subst n. cbn [digits_aux].
    split; [reflexivity|]. split; [|lia].
    apply Forall_cons. split; [lia | exact Hacc].
  - cbn [digits_aux]. destruct (n <? 10)%nat eqn:E.
    + apply Nat.ltb_lt in E. split; [|split].
      * unfold value. rewrite value_from_cons. f_equal.
      * apply Forall_cons. split; assumption.
      * intros Hpos. exists n, acc. split; [reflexivity | exact Hpos].
    + apply Nat.ltb_ge in E.
      pose proof (Nat.div_mod_eq n 10) as Hdm.
      pose proof (Nat.mod_upper_bound n 10 ltac:(lia)) as Hm.
      destruct (IH (n / 10) (n mod 10 :: acc)) as (H1 & H2 & H3).
      * lia.
      * apply Forall_cons. split; assumption.
      * split; [|split].
        -- rewrite H1, value_from_cons. f_equal. lia.
        -- exact H2.
        -- intros _. apply H3. lia.
Qed.

Lemma digits_spec (n : nat) :
  value (digits n) = n
  /\ Forall (fun i => i < 10) (digits n)
  /\ (0 < n -> exists h t, digits n = h :: t /\ 0 < h).
Proof.
  unfold digits.
  destruct (digits_aux_spec n n [] (Nat.le_refl n) (Forall_nil_2 _)) as (H1 & H2 & H3).
  split; [exact H1|]. split; [exact H2 | exact H3].
Qed.

(** [dec] writes the digits of the number. *)
Lemma dec_digits (n : nat) : dec n = string_of_digits (digits n).
Proof.
  destruct n as [|n]; [reflexivity|].
  destruct (digits_spec (S n)) as (Hv & Hf & Hh).
  destruct (Hh ltac:(lia)) as (h & t & E & Hpos).
  unfold dec. rewrite <- Hv at 1. rewrite E in *.
  unfold value. rewrite <- (of_uint_acc_digits _ 0 Hf).
  change (Nat.of_uint_acc (uint_of_digits (h :: t)) 0)
    with (Nat.of_uint (uint_of_digits (h :: t))).
  rewrite DecimalNat.Unsigned.to_of, (unorm_digits h t Hpos).
  apply nilzero_digits.
Qed.

Lemma length_string_of_digits (l : list nat) :
  String.length (string_of_digits l) = length l.
Proof. induction l as [|x l IH]; [reflexivity|]. simpl. f_equal. exact IH. Qed.

Lemma string_append_nil_r (s : string) : (s ++ "")%string = s.
Proof.
  induction s as [|c s IH]; [reflexivity|].
  change (String c (s ++ "") = String c s)%string. f_equal. exact IH.
Qed.

(** Decimal numbers of the same length compare as numbers. *)
Lemma compare_dec (a b : nat) :
  String.length (dec a) = String.length (dec b) ->
  (dec a ?= dec b)%string = (a ?= b)%nat.
Proof.
  rewrite !dec_digits, !length_string_of_digits. intros Hlen.
  destruct (digits_spec a) as (Ha & Hfa & _).
  destruct (digits_spec b) as (Hb & Hfb & _).
  pose proof (compare_digits (digits a) (digits b) "" "" Hfa Hfb Hlen) as H.
  rewrite !string_append_nil_r, Ha, Hb in H. rewrite H.
  unfold lex. destruct (a ?= b)%nat; reflexivity.
Qed.

Lemma string_of_digits_app (a b : list nat) :
  string_of_digits (a ++ b) = (string_of_digits a ++ string_of_digits b)%string.
Proof.
  induction a as [|x a IH]; [reflexivity|].
  change (String (digit_char x) (string_of_digits (a ++ b))
          = String (digit_char x) (string_of_digits a ++ string_of_digits b)%string).
  f_equal. exact IH.
Qed.

Lemma zeros_digits (k : nat) : zeros k = string_of_digits (repeat 0 k).
Proof. induction k as [|k IH]; [reflexivity|]. simpl. f_equal. exact IH. Qed.

Lemma value_from_zeros (k : nat) (l : list nat) :
  value_from 0 (repeat 0 k ++ l) = value_from 0 l.
Proof. induction k as [|k IH]; [reflexivity|]. exact IH. Qed.

Lemma value_from_lower (l : list nat) (acc : nat) :
  acc * 10 ^ length l <= value_from acc l.
Proof.
  revert acc. induction l as [|x l IH]; intros acc.
  - simpl. lia.
  - rewrite value_from_cons. specialize (IH (10 * acc + x)).
    cbn [length]. rewrite Nat.pow_succ_r'. nia.
Qed.

Lemma length_digits (w n : nat) : 0 < w -> n < 10 ^ w -> length (digits n) <= w.
Proof.
  intros Hw Hn. destruct n as [|n]; [simpl; lia|].
  destruct (digits_spec (S n)) as (Hv & _ & Hh).
  destruct (Hh ltac:(lia)) as (h & t & E & Hpos).
  rewrite E in *. cbn [length].
  unfold value in Hv. rewrite value_from_cons in Hv.
  pose proof (value_from_lower t (10 * 0 + h)) as Hlow.
  destruct (Nat.le_gt_cases w (length t)) as [Hge|Hlt]; [|lia].
  pose proof (Nat.pow_le_mono_r 10 w (length t) ltac:(lia) Hge) as Hpow.
  nia.
Qed.

(** A field of a name written with [%0wd]. *)
Lemma padded_field (w n : nat) :
  0 < w -> n < 10 ^ w ->
  zfill w (dec n) = string_of_digits (padded w n)
  /\ Forall (fun i => i < 10) (padded w n)
  /\ value (padded w n) = n
  /\ length (padded w n) = w.
Proof.
  intros Hw Hn. pose proof (length_digits w n Hw Hn) as Hlen.
  destruct (digits_spec n) as (Hv & Hf & _).
  unfold padded. split; [|split; [|split]].
  - unfold zfill. rewrite dec_digits, length_string_of_digits.
    rewrite string_of_digits_app, zeros_digits. reflexivity.
  - apply Forall_app. split; [|exact Hf].
    apply List.Forall_forall. intros x Hx. apply repeat_spec in Hx. lia.
  - unfold value. rewrite value_from_zeros. exact Hv.
  - rewrite length_app, repeat_length. lia.
Qed.

Lemma year_bound (y : nat) : y <= 9999 -> y < 10 ^ 4.
Proof.
  assert (E : 9999 = 9 + 10 * (9 + 10 * (9 + 10 * 9))) by (vm_compute; reflexivity).
  rewrite E. simpl. lia.
Qed.

(** The names of two releases compare by year, then month, then day, and
    then as the strings of their seconds. *)
Lemma compare_format_rel (d1 d2 : date) (n1 n2 : nat) :
  valid_date d1 -> valid_date d2 ->
  (format_rel d1 n1 ?= format_rel d2 n2)%string
  = lex (year d1 ?= year d2)%nat
      (lex (month d1 ?= month d2)%nat
         (lex (day d1 ?= day d2)%nat (dec n1 ?= dec n2)%string)).
Proof.
  intros ((_ & Hy1) & (_ & Hm1) & (_ & Hd1)) ((_ & Hy2) & (_ & Hm2) & (_ & Hd2)).
  apply year_bound in Hy1, Hy2.
  assert (H100 : 10 ^ 2 = 100) by reflexivity.
  destruct (padded_field 4 (year d1) ltac:(lia) Hy1) as (Ey1 & Fy1 & Vy1 & Ly1).
  destruct (padded_field 4 (year d2) ltac:(lia) Hy2) as (Ey2 & Fy2 & Vy2 & Ly2).
  destruct (padded_field 2 (month d1) ltac:(lia) ltac:(lia)) as (Em1 & Fm1 & Vm1 & Lm1).
  destruct (padded_field 2 (month d2) ltac:(lia) ltac:(lia)) as (Em2 & Fm2 & Vm2 & Lm2).
  destruct (padded_field 2 (day d1) ltac:(lia) ltac:(lia)) as (Ed1 & Fd1 & Vd1 & Ld1).
  destruct (padded_field 2 (day d2) ltac:(lia) ltac:(lia)) as (Ed2 & Fd2 & Vd2 & Ld2).
  unfold format_rel, isoformat.
  rewrite Ey1, Ey2, Em1, Em2, Ed1, Ed2.
  rewrite !string_append_assoc.
  rewrite compare_digits by (assumption || congruence).
  rewrite Vy1, Vy2. f_equal.
  rewrite (compare_same_prefix "-").
  rewrite compare_digits by (assumption || congruence).
  rewrite Vm1, Vm2. f_equal.
  rewrite (compare_same_prefix "-").
  rewrite compare_digits by (assumption || congruence).
  rewrite Vd1, Vd2. f_equal.
Qed.

(** X11: the names [_gen_rel] makes for two valid dates follow time
    whenever the dates differ, whatever the seconds; on one date they follow
    the seconds when the two numbers of seconds are written with the same
    number of digits. *)
Theorem release_names_follow_time (d1 d2 : date) (n1 n2 : nat) :
  valid_date d1 -> valid_date d2 ->
  date_lt d1 d2
  \/ (d1 = d2 /\ n1 < n2 /\ String.length (dec n1) = String.length (dec n2)) ->
  str_lt (format_rel d1 n1) (format_rel d2 n2).
Proof.
  intros H1 H2 H. apply str_lt_iff.
  rewrite (compare_format_rel d1 d2 n1 n2 H1 H2). unfold lex.
  destruct H as [Hlt|(-> & Hn & Hlen)].
  - destruct Hlt as [Hy|[[Ey Hm]|(Ey & Em & Hd)]].
    + rewrite (proj2 (Nat.compare_lt_iff _ _) Hy). reflexivity.
    + rewrite Ey, Nat.compare_refl.
      rewrite (proj2 (Nat.compare_lt_iff _ _) Hm). reflexivity.
    + rewrite Ey, Em, !Nat.compare_refl.
      rewrite (proj2 (Nat.compare_lt_iff _ _) Hd). reflexivity.
  - rewrite !Nat.compare_refl. rewrite (compare_dec _ _ Hlen).
    apply Nat.compare_lt_iff, Hn.
Qed.

Lemma digit_char_inj (i j : nat) :
  i < 10 -> j < 10 -> digit_char i = digit_char j -> i = j.
Proof.
  intros Hi Hj E. apply Nat.compare_eq.
  rewrite <- (digit_char_compare i j Hi Hj), E. apply ascii_compare_refl.
Qed.

Lemma string_of_digits_inj (l1 l2 : list nat) :
  Forall (fun i => i < 10) l1 -> Forall (fun i => i < 10) l2 ->
  string_of_digits l1 = string_of_digits l2 -> l1 = l2.
Proof.
  revert l2. induction l1 as [|x l1 IH]; intros l2 H1 H2 E.
  - destruct l2; [reflexivity | discriminate].
  - destruct l2 as [|y l2]; [discriminate|].
    apply Forall_cons in H1 as [Hx H1]. apply Forall_cons in H2 as [Hy H2].
    cbn [string_of_digits] in E. injection E as Ec Es.
    f_equal; [apply digit_char_inj; assumption | apply IH; assumption].
Qed.

Lemma dec_inj (a b : nat) : dec a = dec b -> a = b.
Proof.
  rewrite !dec_digits. intros E.
  destruct (digits_spec a) as (Ha & Hfa & _).
  destruct (digits_spec b) as (Hb & Hfb & _).
  apply string_of_digits_inj in E; [|assumption..].
  rewrite <- Ha, <- Hb, E. reflexivity.
Qed.

Lemma string_compare_refl (s : string) : (s ?= s)%string = Eq.
Proof.
  induction s as [|c s IH]; [reflexivity|].
  rewrite compare_cons, ascii_compare_refl. exact IH.
Qed.

Lemma lex_Eq (c r : comparison) : lex c r = Eq -> c = Eq /\ r = Eq.
Proof. destruct c; simpl; intros H; try discriminate. split; [reflexivity | exact H]. Qed.

(** X12: for valid dates, two names are the same only when they were made
    for the same date and the same second of the day: a different date or a
    different second gives a different release name. *)
Theorem format_rel_inj (d1 d2 : date) (n1 n2 : nat) :
  valid_date d1 -> valid_date d2 ->
  format_rel d1 n1 = format_rel d2 n2 -> d1 = d2 /\ n1 = n2.
Proof.
  intros H1 H2 E.
  pose proof (compare_format_rel d1 d2 n1 n2 H1 H2) as Hc.
  rewrite E, string_compare_refl in Hc. symmetry in Hc.
  apply lex_Eq in Hc as [Hy Hc]. apply lex_Eq in Hc as [Hm Hc].
  apply lex_Eq in Hc as [Hd Hn].
  apply Nat.compare_eq in Hy, Hm, Hd.
  apply String.compare_eq_iff in Hn. apply dec_inj in Hn.
  split; [|exact Hn].
  destruct d1, d2; simpl in *; congruence.
Qed.

(** * The further theorems at concrete inputs *)

Module MoreWitnesses.

Import Scenario Scenario2.

Lemma valid_jan (d : nat) : 1 <= d <= 31 -> valid_date (mkDate 2013 1 d).
Proof.
  intros H. unfold valid_date. simpl.
  split; [|split; [lia | exact H]].
  split; apply Nat.leb_le; vm_compute; reflexivity.
Defined.

Lemma plain_check (l : list string) :
  forallb (fun d => bool_decide (split_ws d = [d])) l = true -> Forall plain l.
Proof.
  induction l as [|d l IH]; intros H; [apply Forall_nil; constructor|].
  simpl in H. apply andb_true_iff in H as [H1 H2].
  apply Forall_cons. split; [|apply IH, H2].
  apply bool_decide_eq_true in H1. exact H1.
Defined.


Lemma setup_missing_base_path_witness :
  fst (setup (fresh ∅ jan4 [])) = Raised "Missing base path.".
Proof.
  destruct (setup_missing_base_path (fresh ∅ jan4 [])) as (H & _).
  - vm_compute. reflexivity.
  - exact H.
Defined.

Lemma enter_prepares_release_witness :
  base_dir (world (snd (enter s_three))) = Some (release_dir "2013-01-04.36000")
  /\ host (world (snd (enter s_three))) !! release_dir "2013-01-04.36000" = Some Dir.
Proof.
  destruct (enter_prepares_release s_three tt (snd (enter s_three)))
    as (H1 & _ & _ & H4 & _).
  - repeat split.
  - vm_compute. reflexivity.
  - split; [exact H1|]. apply H4. vm_compute. reflexivity.
Defined.

Lemma failed_body_is_reverted_witness :
  fst (with_release failing_body s_three) = Raised "boom"
  /\ exists_ (host (world (snd (with_release failing_body s_three))))
             (release_dir "2013-01-04.36000") = false.
Proof.
  destruct (failed_body_is_reverted failing_body s_three
              (snd (enter s_three)) (snd (enter s_three)) "boom")
    as (H1 & _ & H3 & _).
  - repeat split.
  - reflexivity.
  - vm_compute. reflexivity.
  - reflexivity.
  - reflexivity.
  - reflexivity.
  - vm_compute. reflexivity.
  - split; [exact H1 | exact H3].
Defined.

Lemma symlink_promotes_witness :
  host (world (snd (symlink s_cached))) !! (app ++ ["current"])
  = Some (Link (release_dir "2013-01-03.36000")).
Proof.
  destruct (symlink_promotes s_cached tt (snd (symlink s_cached))) as (H & _).
  - repeat split.
  - vm_compute. reflexivity.
  - exact H.
Defined.





Lemma unlistable_release_path_aborts_witness :
  fst (rollback_release (fresh (layout []) jan4 [])) = Raised "run failed".
Proof.
  destruct (unlistable_release_path_aborts (fresh (layout []) jan4 []))
    as (_ & H2 & _).
  - reflexivity.
  - vm_compute. reflexivity.
  - exact H2.
Defined.


Lemma link_shared_links_once_witness :
  host (world (snd (link_shared ["uploads"] true s_cached)))
  !! (release_dir "2013-01-03.36000" ++ ["uploads"])
  = Some (Link (app ++ ["shared"; "uploads"])).
Proof.
  destruct (link_shared_links_once s_cached "2013-01-03.36000" ["uploads"])
    as (_ & _ & H3 & _).
  - repeat split.
  - reflexivity.
  - discriminate.
  - vm_compute. reflexivity.
  - vm_compute. reflexivity.
  - constructor.
  - exact H3.
Defined.

Lemma release_names_follow_time_witness :
  str_lt (format_rel (mkDate 2013 1 1) 9999) (format_rel (mkDate 2013 1 2) 10).
Proof.
  apply release_names_follow_time.
  - apply valid_jan. lia.
  - apply valid_jan. lia.
  - left. right. right. split; [reflexivity|]. split; [reflexivity|]. simpl. lia.
Defined.

Lemma format_rel_inj_witness :
  mkDate 2013 1 1 = mkDate 2013 1 1 /\ 10 = 10.
Proof.
  apply (format_rel_inj (mkDate 2013 1 1) (mkDate 2013 1 1) 10 10).
  - apply valid_jan. lia.
  - apply valid_jan. lia.
  - reflexivity.
Defined.

End MoreWitnesses.
